(** * Order lifecycle engine of the restaurant management system

    A shallow embedding of the order state machine, the guarded transition of
    the order entity, the business rule evaluator, the idempotency service,
    the event bus and the command classes, followed by the properties that
    the specification states about them.  The configuration getters, the
    command invoker, the order management functions of the monolith
    (cancellation, modification, status queries, transaction buffer, priority
    heap) and two of its algorithms are embedded as well, with further
    properties read off the code.

    C++ [int] and [std::time_t] values are integers of [Z]; where the source
    narrows a value to [int], or subtracts two [std::time_t] values that may
    lie apart by more than 64 bits hold, the wrap-around is written out.  [double] is the
    binary64 type of [PrimFloat].  Static class members and the clock become
    fields of an explicit world that every operation threads through. *)

From Stdlib Require Import ZArith Bool List Lia Ascii String Floats DecimalString
  DecimalPos Sorted.
From Equations Require Import Equations.
From stdpp Require Import gmap strings list.
Import ListNotations.

Local Open Scope Z_scope.

(** ** C++ scalars and the standard-library helpers the sources call *)

Module Cpp.

Definition INT_MIN : Z := - 2 ^ 31.
Definition INT_MAX : Z := 2 ^ 31 - 1.

(** Narrowing conversion of an integer to a 32-bit [int]. *)
Definition to_int (z : Z) : Z := (z + 2 ^ 31) mod 2 ^ 32 - 2 ^ 31.

(** A difference of two [std::time_t] values as the 64-bit build computes
    it: the result wraps around when it does not fit. *)
Definition to_time_t (z : Z) : Z := (z + 2 ^ 63) mod 2 ^ 64 - 2 ^ 63.

(** [std::to_string] on an [int]. *)
Definition to_string (z : Z) : string := NilZero.string_of_int (Z.to_int z).

(** [std::to_string] on a [double], that is [printf] with [%f]: the exact
    value rounded to six digits after the point, ties to even.  The type
    [float] has a single NaN, so [nan] stands for both texts that the C
    library prints for a NaN, [nan] and [-nan] (sign bit set). *)
Definition to_string_double (x : float) : string :=
  match Prim2SF x with
  | S754_zero s => (if s then "-" else "") +:+ "0.000000"
  | S754_infinity s => if s then "-inf" else "inf"
  | S754_nan => "nan"
  | S754_finite s m e =>
      let num := Z.pos m * 10 ^ 6 * 2 ^ Z.max e 0 in
      let den := 2 ^ Z.max (- e) 0 in
      let q := num / den in
      let r := num mod den in
      let q' := if (2 * r >? den) || ((2 * r =? den) && Z.odd q)
                then q + 1 else q in
      let frac := to_string (10 ^ 6 + q' mod 10 ^ 6) in
      (if s then "-" else "") +:+ to_string (q' / 10 ^ 6) +:+ "."
        +:+ String.substring 1 6 frac
  end.

(** [std::isspace] in the C locale. *)
Definition isspace (c : ascii) : bool :=
  let n := nat_of_ascii c in
  (Nat.eqb n 32 || (Nat.leb 9 n && Nat.leb n 13))%bool.

Definition digit_of (c : ascii) : option Z :=
  let n := nat_of_ascii c in
  if (Nat.leb 48 n && Nat.leb n 57)%bool then Some (Z.of_nat n - 48) else None.

Fixpoint skip_space (s : string) : string :=
  match s with
  | String c r => if isspace c then skip_space r else s
  | EmptyString => s
  end.

(** Longest run of decimal digits at the head of [s], accumulated on [acc];
    the flag tells whether a digit was read. *)
Fixpoint read_digits (s : string) (acc : Z) (seen : bool) : Z * bool :=
  match s with
  | String c r =>
      match digit_of c with
      | Some d => read_digits r (10 * acc + d) true
      | None => (acc, seen)
      end
  | EmptyString => (acc, seen)
  end.

(** [std::stoi(s)]: leading white space, an optional sign, decimal digits;
    trailing characters are ignored.  [None] stands for the two exceptions
    it throws ([invalid_argument] when no digit is read, [out_of_range] when
    the value does not fit an [int]). *)
Definition stoi (s : string) : option Z :=
  let s1 := skip_space s in
  let '(neg, s2) :=
    match s1 with
    | String "-"%char r => (true, r)
    | String "+"%char r => (false, r)
    | _ => (false, s1)
    end in
  match read_digits s2 0 false with
  | (_, false) => None
  | (v, true) =>
      let r := if neg then - v else v in
      if (INT_MIN <=? r) && (r <=? INT_MAX) then Some r else None
  end.

End Cpp.

(** ** include/Common.h *)

Inductive LogLevel := DEBUG | INFO | WARNING | ERROR.

Definition LogLevel_rank (l : LogLevel) : Z :=
  match l with DEBUG => 0 | INFO => 1 | WARNING => 2 | ERROR => 3 end.

(** ** src/Logger.cpp

    The two output streams receive the same text; one emitted line is kept as
    its tag, the clock value that [std::ctime] formats, and the message. *)

Module Logger.

Record Line := { tag : string; at_time : Z; msg : string }.

Record Sink := { currentLevel : LogLevel; lines : list Line }.

Definition initial : Sink := {| currentLevel := INFO; lines := [] |}.

Definition log (now : Z) (level : LogLevel) (m : string) (s : Sink) : Sink :=
  if LogLevel_rank level <? LogLevel_rank (currentLevel s) then s
  else
    let tg := match level with
              | INFO => "[INFO]"
              | WARNING => "[WARN]"
              | ERROR => "[ERROR]"
              | DEBUG => "[DEBUG]"
              end in
    {| currentLevel := currentLevel s;
       lines := lines s ++ [{| tag := tg; at_time := now; msg := m |}] |}.

End Logger.

(** ** include/OrderFSM.h *)

Inductive OrderState :=
  CREATED | CONFIRMED | PREPARING | READY | SERVED | CANCELLED | REFUNDED.

Global Instance OrderState_eq_dec : EqDecision OrderState.
Proof. solve_decision. Defined.

Definition OrderState_eqb (a b : OrderState) : bool := bool_decide (a = b).

Definition all_states : list OrderState :=
  [CREATED; CONFIRMED; PREPARING; READY; SERVED; CANCELLED; REFUNDED].

(** The enumerator's integer value, [(int)s]. *)
Definition OrderState_int (s : OrderState) : nat :=
  match s with
  | CREATED => 0 | CONFIRMED => 1 | PREPARING => 2 | READY => 3
  | SERVED => 4 | CANCELLED => 5 | REFUNDED => 6
  end%nat.

Module OrderFSM.

Definition canTransition (from to : OrderState) : bool :=
  match from with
  | CREATED => OrderState_eqb to CONFIRMED || OrderState_eqb to CANCELLED
  | CONFIRMED => OrderState_eqb to PREPARING || OrderState_eqb to CANCELLED
  | PREPARING => OrderState_eqb to READY
  | READY => OrderState_eqb to SERVED || OrderState_eqb to CANCELLED
  | SERVED => OrderState_eqb to REFUNDED
  | _ => false
  end.

Definition names : list string :=
  ["CREATED"; "CONFIRMED"; "PREPARING"; "READY";
   "SERVED"; "CANCELLED"; "REFUNDED"].

Definition toString (s : OrderState) : string :=
  nth (OrderState_int s) names "".

End OrderFSM.

(** ** include/Models.h *)

Module Models.

Record Order := {
  orderId : Z;
  customerId : Z;
  total : float;
  priority : Z;
  timestamp : Z;
  state : OrderState
}.

Definition set_state (o : Order) (s : OrderState) : Order :=
  {| orderId := orderId o; customerId := customerId o; total := total o;
     priority := priority o; timestamp := timestamp o; state := s |}.

(** [Order::updateState]: the order after the call and the returned flag. *)
Definition updateState (o : Order) (next : OrderState) : Order * bool :=
  if OrderFSM.canTransition (state o) next then (set_state o next, true)
  else (o, false).

End Models.

(** ** daa_project.c++, namespaces Core and Domain *)

Module Core.

(** [Core::Logger]: a line is the formatted time, the level text and the
    message; the time is kept as the clock value it is formatted from. *)
Record Line := { at_time : Z; levelStr : string; message : string }.

Record Sink := { currentLevel : LogLevel; lines : list Line }.

Definition initial : Sink := {| currentLevel := INFO; lines := [] |}.

Definition log (now : Z) (level : LogLevel) (m : string) (s : Sink) : Sink :=
  if LogLevel_rank level <? LogLevel_rank (currentLevel s) then s
  else
    let ls := match level with
              | DEBUG => "[DEBUG]"
              | INFO => "[INFO]"
              | WARNING => "[WARNING]"
              | ERROR => "[ERROR]"
              end in
    {| currentLevel := currentLevel s;
       lines := lines s ++ [{| at_time := now; levelStr := ls; message := m |}] |}.

End Core.

Module Domain.

(** [Domain::OrderState] has the enumerators of [OrderState] in the same
    order; the two enumerations share one inductive type here. *)

Module OrderFlowManager.

Definition canTransition (current next : OrderState) : bool :=
  match current with
  | CREATED => OrderState_eqb next CONFIRMED || OrderState_eqb next CANCELLED
  | CONFIRMED => OrderState_eqb next PREPARING || OrderState_eqb next CANCELLED
  | PREPARING => OrderState_eqb next READY
  | READY => OrderState_eqb next SERVED || OrderState_eqb next CANCELLED
  | SERVED => OrderState_eqb next REFUNDED
  | CANCELLED => false
  | REFUNDED => false
  end.

Definition names : list string :=
  ["Created"; "Confirmed"; "Preparing"; "Ready"; "Served"; "Cancelled";
   "Refunded"].

Definition stateToString (s : OrderState) : string :=
  nth (OrderState_int s) names "".

Definition stringToState (s : string) : OrderState :=
  if String.eqb s "Created" then CREATED
  else if String.eqb s "Confirmed" then CONFIRMED
  else if String.eqb s "Preparing" then PREPARING
  else if String.eqb s "Ready" then READY
  else if String.eqb s "Served" then SERVED
  else if String.eqb s "Cancelled" then CANCELLED
  else if String.eqb s "Refunded" then REFUNDED
  else CREATED.

End OrderFlowManager.

Record Order := {
  orderId : Z;
  customerId : Z;
  tableNumber : Z;
  items : list string;
  itemCount : Z;
  totalAmount : float;
  priority : Z;
  status : OrderState;
  orderTime : Z
}.

Definition set_status (o : Order) (s : OrderState) : Order :=
  {| orderId := orderId o; customerId := customerId o;
     tableNumber := tableNumber o; items := items o;
     itemCount := itemCount o; totalAmount := totalAmount o;
     priority := priority o; status := s; orderTime := orderTime o |}.

(** [Order::tryUpdateStatus]: the order and the log after the call, and the
    returned flag. *)
Definition tryUpdateStatus (now : Z) (o : Order) (newState : OrderState)
    (lg : Core.Sink) : Order * Core.Sink * bool :=
  if OrderFlowManager.canTransition (status o) newState then
    let o' := set_status o newState in
    (o',
     Core.log now INFO
       ("Order " +:+ Cpp.to_string (orderId o') +:+ " transitioned to "
          +:+ OrderFlowManager.stateToString newState) lg,
     true)
  else
    (o,
     Core.log now WARNING
       ("Invalid state transition for order " +:+ Cpp.to_string (orderId o)
          +:+ ": " +:+ OrderFlowManager.stateToString (status o)
          +:+ " -> " +:+ OrderFlowManager.stateToString newState) lg,
     false).

Definition getStatusString (o : Order) : string :=
  OrderFlowManager.stateToString (status o).

End Domain.

(** ** The process state of the modular backend (src/, include/)

    The static members of the classes and the objects they point to, kept in
    one record: the clock that [std::time(nullptr)] reads (constant during
    one operation), the log, [Config::configMap],
    [BusinessRules::lastViolationMessage], the registry and default TTL of
    [IdempotencyService], and the listener vector of the [EventBus]
    singleton together with the listener objects its pointers designate. *)

Inductive EventType :=
  ORDER_PLACED | ORDER_CONFIRMED | ORDER_PREPARING | ORDER_READY
| ORDER_SERVED | ORDER_CANCELLED | ORDER_REFUNDED | INVENTORY_UPDATED
| INVENTORY_LOW | CUSTOMER_CREATED | CUSTOMER_DELETED | PAYMENT_PROCESSED
| REFUND_ISSUED.

Record Event := {
  type : EventType;
  entityId : Z;
  entityType : string;
  details : string;
  timestamp : Z;
  sourceAction : string
}.

(** What a [throw] raises: an object of a class derived from
    [std::exception], with its [what()] text, or a value of any other type. *)
Inductive Exn :=
| StdException (what : string)
| OtherException.

(** The result of a call that may leave by an exception. *)
Inductive Outcome (A : Type) :=
| Returned (a : A)
| Thrown (e : Exn).
Arguments Returned {A} a.
Arguments Thrown {A} e.

(** An object implementing the [EventListener] interface.  [onEvent] reads
    the clock, may write to the log, and returns or throws; a listener does
    not call back into the bus. *)
Record EventListener := {
  getName : string;
  onEvent : Event -> Z -> Logger.Sink -> Logger.Sink * Outcome unit
}.

Record IdempotencyRecord := {
  requestId : string;
  operationType : string;
  succeeded : bool;
  resultData : string;
  createdAt : Z;
  ttlSeconds : Z
}.

(** A pointer to a listener is its address; [nullptr] is address zero. *)
Definition nullptr : N := 0%N.

Record World := {
  clock : Z;
  logger : Logger.Sink;
  configMap : gmap string string;
  lastViolationMessage : string;
  registry : gmap string IdempotencyRecord;
  defaultTTLSeconds : Z;
  heap : N -> EventListener;
  listeners : list N;
  calls : list (N * Event)
}.

(** [calls] is the sequence of [onEvent] invocations made so far, each with
    the listener called and the event passed. *)

Definition with_clock (w : World) (t : Z) : World :=
  {| clock := t; logger := logger w; configMap := configMap w;
     lastViolationMessage := lastViolationMessage w; registry := registry w;
     defaultTTLSeconds := defaultTTLSeconds w; heap := heap w;
     listeners := listeners w; calls := calls w |}.

Definition with_logger (w : World) (l : Logger.Sink) : World :=
  {| clock := clock w; logger := l; configMap := configMap w;
     lastViolationMessage := lastViolationMessage w; registry := registry w;
     defaultTTLSeconds := defaultTTLSeconds w; heap := heap w;
     listeners := listeners w; calls := calls w |}.

Definition with_violation (w : World) (m : string) : World :=
  {| clock := clock w; logger := logger w; configMap := configMap w;
     lastViolationMessage := m; registry := registry w;
     defaultTTLSeconds := defaultTTLSeconds w; heap := heap w;
     listeners := listeners w; calls := calls w |}.

Definition with_registry (w : World) (r : gmap string IdempotencyRecord) : World :=
  {| clock := clock w; logger := logger w; configMap := configMap w;
     lastViolationMessage := lastViolationMessage w; registry := r;
     defaultTTLSeconds := defaultTTLSeconds w; heap := heap w;
     listeners := listeners w; calls := calls w |}.

Definition with_defaultTTL (w : World) (t : Z) : World :=
  {| clock := clock w; logger := logger w; configMap := configMap w;
     lastViolationMessage := lastViolationMessage w; registry := registry w;
     defaultTTLSeconds := t; heap := heap w;
     listeners := listeners w; calls := calls w |}.

Definition with_listeners (w : World) (ls : list N) : World :=
  {| clock := clock w; logger := logger w; configMap := configMap w;
     lastViolationMessage := lastViolationMessage w; registry := registry w;
     defaultTTLSeconds := defaultTTLSeconds w; heap := heap w;
     listeners := ls; calls := calls w |}.

Definition with_calls (w : World) (cs : list (N * Event)) : World :=
  {| clock := clock w; logger := logger w; configMap := configMap w;
     lastViolationMessage := lastViolationMessage w; registry := registry w;
     defaultTTLSeconds := defaultTTLSeconds w; heap := heap w;
     listeners := listeners w; calls := cs |}.

Definition with_config (w : World) (c : gmap string string) : World :=
  {| clock := clock w; logger := logger w; configMap := c;
     lastViolationMessage := lastViolationMessage w; registry := registry w;
     defaultTTLSeconds := defaultTTLSeconds w; heap := heap w;
     listeners := listeners w; calls := calls w |}.

Definition with_heap (w : World) (h : N -> EventListener) : World :=
  {| clock := clock w; logger := logger w; configMap := configMap w;
     lastViolationMessage := lastViolationMessage w; registry := registry w;
     defaultTTLSeconds := defaultTTLSeconds w; heap := h;
     listeners := listeners w; calls := calls w |}.

(** [Logger::log] on the log of the world, at the world's clock. *)
Definition wlog (level : LogLevel) (m : string) (w : World) : World :=
  with_logger w (Logger.log (clock w) level m (logger w)).

(** The clock moves by [dt] seconds between two operations. *)
Definition advance (dt : Z) (w : World) : World := with_clock w (clock w + dt).

(** ** src/Config.cpp *)

Module Config.

Definition getInt (key : string) (defaultValue : Z) (w : World) : World * Z :=
  match configMap w !! key with
  | None => (w, defaultValue)
  | Some v =>
      match Cpp.stoi v with
      | Some n => (w, n)
      | None =>
          (wlog WARNING ("Invalid integer config value for " +:+ key) w,
           defaultValue)
      end
  end.

Definition getString (key : string) (defaultValue : string) (w : World)
    : string :=
  match configMap w !! key with
  | Some v => v
  | None => defaultValue
  end.

(** [::tolower] in the C locale, on one character and on a string. *)
Definition tolower (c : ascii) : ascii :=
  let n := nat_of_ascii c in
  if (Nat.leb 65 n && Nat.leb n 90)%bool then ascii_of_nat (n + 32) else c.

Fixpoint lowercase (s : string) : string :=
  match s with
  | EmptyString => EmptyString
  | String c r => String (tolower c) (lowercase r)
  end.

Definition getBool (key : string) (defaultValue : bool) (w : World) : bool :=
  match configMap w !! key with
  | None => defaultValue
  | Some v =>
      let val := lowercase v in
      String.eqb val "true" || String.eqb val "yes" || String.eqb val "1"
  end.

Definition set (key value : string) (w : World) : World :=
  with_config w (<[key := value]> (configMap w)).

Definition exists_ (key : string) (w : World) : bool :=
  bool_decide (is_Some (configMap w !! key)).

End Config.

(** ** src/BusinessRules.cpp *)

Module BusinessRules.

Import Models.

Definition canCreateOrder (customerId : Z) (amount : float) (w : World)
    : World * bool :=
  if customerId <=? 0 then (with_violation w "Invalid customer ID", false)
  else if PrimFloat.leb amount 0%float
       then (with_violation w "Order amount must be positive", false)
  else (w, true).

Definition canModifyOrder (order : Order) (w : World) : World * bool :=
  if negb (OrderState_eqb (state order) CREATED)
     && negb (OrderState_eqb (state order) CONFIRMED)
  then (with_violation w
          ("Cannot modify order in " +:+ OrderFSM.toString (state order)
             +:+ " state"), false)
  else (w, true).

Definition canCancelOrder (order : Order) (w : World) : World * bool :=
  if OrderState_eqb (state order) SERVED
     || OrderState_eqb (state order) REFUNDED
     || OrderState_eqb (state order) CANCELLED
  then (with_violation w
          ("Cannot cancel order in " +:+ OrderFSM.toString (state order)
             +:+ " state"), false)
  else (w, true).

Definition isWithinRefundWindow (order : Order) (w : World) : World * bool :=
  let '(w1, refundWindowDays) := Config.getInt "REFUND_WINDOW_DAYS" 7 w in
  let now := clock w1 in
  let orderAge := Cpp.to_time_t (now - Models.timestamp order) in
  let daysSinceOrder := Cpp.to_int (orderAge ÷ (24 * 3600)) in
  (w1, daysSinceOrder <=? refundWindowDays).

Definition canRefundOrder (order : Order) (w : World) : World * bool :=
  if negb (OrderState_eqb (state order) SERVED)
  then (with_violation w "Can only refund SERVED orders", false)
  else
    let '(w1, ok) := isWithinRefundWindow order w in
    if negb ok
    then (with_violation w1 "Order is outside refund window", false)
    else (w1, true).

Definition canServeOrder (order : Order) (w : World) : World * bool :=
  if negb (OrderState_eqb (state order) READY)
  then (with_violation w "Order must be READY before serving", false)
  else (w, true).

Definition calculateRefundAmount (order : Order) (w : World) : World * float :=
  let '(w1, ok) := isWithinRefundWindow order w in
  if ok then (w1, total order) else (w1, (total order * 0.5)%float).

Definition getViolationMessage (w : World) : string := lastViolationMessage w.

Definition canApplyLoyaltyPoints (customerId points : Z) (w : World)
    : World * bool :=
  if customerId <=? 0 then (with_violation w "Invalid customer ID", false)
  else if points <? 0
       then (with_violation w "Loyalty points cannot be negative", false)
  else (w, true).

Definition isEligibleForDiscount (customerId : Z) : bool := customerId >? 0.

Definition canReduceInventory (itemName : string) (quantity : Z) (w : World)
    : World * bool :=
  if String.eqb itemName ""
  then (with_violation w "Item name cannot be empty", false)
  else if quantity <=? 0
       then (with_violation w "Quantity must be positive", false)
  else (w, true).

Definition needsReorder (itemName : string) (currentQuantity reorderLevel : Z)
    : bool :=
  currentQuantity <=? reorderLevel.

Definition isValidPaymentAmount (amount : float) (w : World) : World * bool :=
  if PrimFloat.leb amount 0%float
  then (with_violation w "Payment amount must be positive", false)
  else if PrimFloat.ltb 1000000%float amount
       then (with_violation w "Payment amount exceeds maximum limit", false)
  else (w, true).

End BusinessRules.

(** ** include/IdempotencyService.h, src/IdempotencyService.cpp *)

Module IdempotencyService.

(** [IdempotencyRecord::isExpired] at clock value [now]. *)
Definition isExpired (now : Z) (r : IdempotencyRecord) : bool :=
  now - createdAt r >? ttlSeconds r.

(** [isDuplicate(requestId, cachedResult)]: the world and the referenced
    string after the call, and the returned flag. *)
Definition isDuplicate (rid : string) (cachedResult : string) (w : World)
    : World * string * bool :=
  match registry w !! rid with
  | None => (w, cachedResult, false)
  | Some record =>
      if isExpired (clock w) record then
        let w1 := wlog DEBUG
                    ("IdempotencyService: Request " +:+ rid +:+ " record expired")
                    w in
        (with_registry w1 (delete rid (registry w1)), cachedResult, false)
      else
        (wlog INFO
           ("IdempotencyService: Duplicate request " +:+ rid
              +:+ " detected, returning cached result") w,
         resultData record, true)
  end.

Definition recordSuccess (rid opType result : string) (w : World) : World :=
  let r := {| requestId := rid; operationType := opType; succeeded := true;
              resultData := result; createdAt := clock w;
              ttlSeconds := defaultTTLSeconds w |} in
  wlog INFO ("IdempotencyService: Recorded success for " +:+ rid)
    (with_registry w (<[rid := r]> (registry w))).

Definition recordFailure (rid opType : string) (w : World) : World :=
  let r := {| requestId := rid; operationType := opType; succeeded := false;
              resultData := ""; createdAt := clock w;
              ttlSeconds := defaultTTLSeconds w |} in
  wlog WARNING ("IdempotencyService: Recorded failure for " +:+ rid)
    (with_registry w (<[rid := r]> (registry w))).

Definition getRecord (rid : string) (w : World) : option IdempotencyRecord :=
  registry w !! rid.

Definition cleanupExpired (w : World) : World :=
  let kept := filter (fun kv => isExpired (clock w) kv.2 = false) (registry w) in
  let removed := Z.of_nat (size (registry w)) - Z.of_nat (size kept) in
  let w1 := with_registry w kept in
  if removed >? 0
  then wlog INFO ("IdempotencyService: Cleaned up " +:+ Cpp.to_string removed
                    +:+ " expired records") w1
  else w1.

Definition getTrackedCount (w : World) : Z :=
  Cpp.to_int (Z.of_nat (size (registry w))).

Definition setDefaultTTL (seconds : Z) (w : World) : World :=
  wlog INFO ("IdempotencyService: Default TTL set to "
               +:+ Cpp.to_string seconds +:+ "s")
    (with_defaultTTL w seconds).

End IdempotencyService.

(** ** include/EventSystem.h, src/EventSystem.cpp *)

Module EventBus.

Definition subscribe (listener : N) (w : World) : World :=
  if N.eqb listener nullptr then w
  else if bool_decide (listener ∈ listeners w) then w
  else
    wlog INFO ("EventBus: Listener '" +:+ getName (heap w listener)
                 +:+ "' subscribed")
      (with_listeners w (listeners w ++ [listener])).

(** [listeners.erase(it)] at the first position holding [x]. *)
Fixpoint erase_first (x : N) (l : list N) : list N :=
  match l with
  | [] => []
  | y :: r => if N.eqb y x then r else y :: erase_first x r
  end.

Definition unsubscribe (listener : N) (w : World) : World :=
  if N.eqb listener nullptr then w
  else if bool_decide (listener ∈ listeners w) then
    wlog INFO ("EventBus: Listener '" +:+ getName (heap w listener)
                 +:+ "' unsubscribed")
      (with_listeners w (erase_first listener (listeners w)))
  else w.

Definition eventName (t : EventType) : string :=
  match t with
  | ORDER_PLACED => "ORDER_PLACED"
  | ORDER_CONFIRMED => "ORDER_CONFIRMED"
  | ORDER_PREPARING => "ORDER_PREPARING"
  | ORDER_READY => "ORDER_READY"
  | ORDER_SERVED => "ORDER_SERVED"
  | ORDER_CANCELLED => "ORDER_CANCELLED"
  | ORDER_REFUNDED => "ORDER_REFUNDED"
  | INVENTORY_UPDATED => "INVENTORY_UPDATED"
  | INVENTORY_LOW => "INVENTORY_LOW"
  | CUSTOMER_CREATED => "CUSTOMER_CREATED"
  | CUSTOMER_DELETED => "CUSTOMER_DELETED"
  | PAYMENT_PROCESSED => "PAYMENT_PROCESSED"
  | REFUND_ISSUED => "REFUND_ISSUED"
  end.

(** The range-for loop of [emit] over the listeners still to be visited.
    The handler of the [try] block matches [const std::exception&] only: an
    exception of another type leaves the loop and the function. *)
Fixpoint dispatch (ls : list N) (event : Event) (w : World)
    : World * Outcome unit :=
  match ls with
  | [] => (w, Returned tt)
  | listener :: rest =>
      let '(lg, r) := onEvent (heap w listener) event (clock w) (logger w) in
      let w1 := with_calls (with_logger w lg) (calls w ++ [(listener, event)]) in
      match r with
      | Returned _ => dispatch rest event w1
      | Thrown (StdException what) =>
          dispatch rest event
            (wlog ERROR ("EventBus: Listener '" +:+ getName (heap w listener)
                           +:+ "' threw exception: " +:+ what) w1)
      | Thrown e => (w1, Thrown e)
      end
  end.

Definition emit (event : Event) (w : World) : World * Outcome unit :=
  let w1 := wlog DEBUG
              ("EventBus: Emitting " +:+ eventName (type event) +:+ " (entity:"
                 +:+ entityType event +:+ "#" +:+ Cpp.to_string (entityId event)
                 +:+ ")") w in
  dispatch (listeners w1) event w1.

Definition clear (w : World) : World :=
  wlog INFO "EventBus: Cleared all listeners" (with_listeners w []).

(** The sample listeners of src/EventSystem.cpp. *)

Definition LoggerListener : EventListener :=
  {| getName := "LoggerListener";
     onEvent := fun event now lg =>
       (Logger.log now INFO
          ("[EVENT]" +:+ " " +:+ entityType event +:+ "#"
             +:+ Cpp.to_string (entityId event) +:+ " | " +:+ details event) lg,
        Returned tt) |}.

Definition AuditListener : EventListener :=
  {| getName := "AuditListener";
     onEvent := fun event now lg =>
       (Logger.log now INFO
          ("AUDIT: " +:+ entityType event +:+ " operation: " +:+ details event)
          lg,
        Returned tt) |}.

Definition AnalyticsListener : EventListener :=
  {| getName := "AnalyticsListener";
     onEvent := fun event now lg =>
       (Logger.log now DEBUG
          ("ANALYTICS: Tracked " +:+ entityType event +:+ " event") lg,
        Returned tt) |}.

(** The three file-level pointers of src/EventSystem.cpp, null until
    [initializeEventListeners] runs. *)
Record Handles := {
  loggerListener : N;
  auditListener : N;
  analyticsListener : N
}.

Definition no_handles : Handles :=
  {| loggerListener := nullptr; auditListener := nullptr;
     analyticsListener := nullptr |}.

(** [new T()] placing the object at address [a]. *)
Definition alloc (a : N) (obj : EventListener) (w : World) : World :=
  with_heap w (fun p => if N.eqb p a then obj else heap w p).

(** [initializeEventListeners]; [a1], [a2], [a3] are the addresses that the
    three [new] expressions return. *)
Definition initializeEventListeners (a1 a2 a3 : N) (w : World)
    : Handles * World :=
  let w1 := alloc a1 LoggerListener w in
  let w2 := alloc a2 AuditListener w1 in
  let w3 := alloc a3 AnalyticsListener w2 in
  ({| loggerListener := a1; auditListener := a2; analyticsListener := a3 |},
   subscribe a3 (subscribe a2 (subscribe a1 w3))).

(** [cleanupEventListeners]; the pointers keep their values, and the freed
    objects stay in the model's heap since nothing reads them afterwards. *)
Definition cleanupEventListeners (h : Handles) (w : World) : World :=
  let w1 := if N.eqb (loggerListener h) nullptr then w
            else unsubscribe (loggerListener h) w in
  let w2 := if N.eqb (auditListener h) nullptr then w1
            else unsubscribe (auditListener h) w1 in
  if N.eqb (analyticsListener h) nullptr then w2
  else unsubscribe (analyticsListener h) w2.

End EventBus.

(** ** include/CommandPattern.h, src/CommandPattern.cpp *)

Module CommandPattern.

(** The four concrete command classes with their data members. *)
Inductive Command :=
| PlaceOrderCommand (order : Models.Order)
| CancelOrderCommand (orderId : Z) (reason : string)
| IssueRefundCommand (orderId : Z) (amount : float) (reason : string)
| ConfirmOrderCommand (orderId : Z).

Definition getName (c : Command) : string :=
  match c with
  | PlaceOrderCommand _ => "PlaceOrder"
  | CancelOrderCommand _ _ => "CancelOrder"
  | IssueRefundCommand _ _ _ => "IssueRefund"
  | ConfirmOrderCommand _ => "ConfirmOrder"
  end.

(** The event type each [execute] assigns to [evt.type]. *)
Definition eventTypeOf (c : Command) : EventType :=
  match c with
  | PlaceOrderCommand _ => ORDER_PLACED
  | CancelOrderCommand _ _ => ORDER_CANCELLED
  | IssueRefundCommand _ _ _ => REFUND_ISSUED
  | ConfirmOrderCommand _ => ORDER_CONFIRMED
  end.

Section Execute.

(** The value read from the member [evt.entityId], which [execute] leaves
    uninitialised. *)
Variable indeterminate : Z.

(** [Event evt; evt.type = t; evt.timestamp = std::time(nullptr);] *)
Definition make_event (t : EventType) (w : World) : Event :=
  {| type := t; entityId := indeterminate; entityType := ""; details := "";
     timestamp := clock w; sourceAction := "" |}.

(** The tail shared by the four [execute] bodies: build the event, emit it,
    [return true].  The command object comes back with the result since
    [execute] is a non-const member function. *)
Definition emit_and_return (c : Command) (t : EventType) (w : World)
    : World * Outcome (Command * bool) :=
  match EventBus.emit (make_event t w) w with
  | (w', Returned _) => (w', Returned (c, true))
  | (w', Thrown e) => (w', Thrown e)
  end.

Definition execute (c : Command) (w : World) : World * Outcome (Command * bool) :=
  match c with
  | PlaceOrderCommand _ =>
      emit_and_return c ORDER_PLACED
        (wlog INFO "PlaceOrderCommand: Processing" w)
  | CancelOrderCommand orderId _ =>
      emit_and_return c ORDER_CANCELLED
        (wlog INFO ("CancelOrderCommand #" +:+ Cpp.to_string orderId) w)
  | IssueRefundCommand _ amount _ =>
      emit_and_return c REFUND_ISSUED
        (wlog INFO ("IssueRefundCommand: $" +:+ Cpp.to_string_double amount) w)
  | ConfirmOrderCommand orderId =>
      emit_and_return c ORDER_CONFIRMED
        (wlog INFO ("ConfirmOrderCommand #" +:+ Cpp.to_string orderId) w)
  end.

Definition undo (c : Command) (w : World) : World * bool :=
  match c with
  | PlaceOrderCommand _ => (wlog INFO "PlaceOrderCommand: Undone" w, true)
  | CancelOrderCommand _ _ => (wlog INFO "CancelOrderCommand: Undone" w, true)
  | IssueRefundCommand _ _ _ => (wlog INFO "IssueRefundCommand: Undone" w, true)
  | ConfirmOrderCommand _ => (wlog INFO "ConfirmOrderCommand: Undone" w, true)
  end.

(** [CommandInvoker::execute], with the history vector passed explicitly.
    The argument is a [std::shared_ptr<Command>]: [None] is the null
    pointer, [Some c] points to the command [c]. *)
Definition invoker_execute (cmd : option Command) (history : list Command)
    (w : World) : World * Outcome (list Command * bool) :=
  match cmd with
  | None => (w, Returned (history, false))
  | Some c =>
      match execute c w with
      | (w', Thrown e) => (w', Thrown e)
      | (w', Returned (_, false)) => (w', Returned (history, false))
      | (w', Returned (c', true)) =>
          (wlog INFO ("CMD: " +:+ getName c') w',
           Returned (history ++ [c'], true))
      end
  end.

(** [CommandInvoker::undo], [getLastCommand], [getCommandCount] and
    [clearHistory], on the history vector. *)
Definition invoker_undo (history : list Command) (w : World)
    : World * (list Command * bool) :=
  match last history with
  | None => (w, (history, false))
  | Some cmd =>
      match undo cmd w with
      | (w', false) => (w', (history, false))
      | (w', true) =>
          (wlog INFO ("UNDO: " +:+ getName cmd) w',
           (removelast history, true))
      end
  end.

Definition getLastCommand (history : list Command) : option Command :=
  last history.

Definition getCommandCount (history : list Command) : Z :=
  Cpp.to_int (Z.of_nat (length history)).

Definition clearHistory (history : list Command) (w : World)
    : World * list Command :=
  (wlog INFO "Command history cleared" w, []).

End Execute.

End CommandPattern.

(** ** daa_project.c++, namespace Algorithms *)

Module Algorithms.

(** The [while (l <= r)] loop of [binarySearch].  [arr[mid]] is read with
    [mid] between [l] and [r]; the call from [binarySearch] keeps both
    inside the vector. *)
Equations? binarySearch_loop (arr : list Z) (target l r : Z) : Z
  by wf (Z.to_nat (r - l + 1)) lt :=
binarySearch_loop arr target l r with decide (l <= r) := {
  | right _ => -1
  | left _ with Z.eqb (nth (Z.to_nat (l + (r - l) ÷ 2)) arr 0) target := {
    | true => l + (r - l) ÷ 2
    | false with Z.ltb (nth (Z.to_nat (l + (r - l) ÷ 2)) arr 0) target := {
      | true => binarySearch_loop arr target (l + (r - l) ÷ 2 + 1) r
      | false => binarySearch_loop arr target l (l + (r - l) ÷ 2 - 1) } } }.
Proof.
  all: assert (H2 : 0 <= (r - l) ÷ 2 <= r - l)
    by (rewrite Z.quot_div_nonneg by lia;
        split; [apply Z.div_pos; lia | apply Z.div_le_upper_bound; lia]);
    lia.
Qed.

Definition binarySearch (arr : list Z) (target : Z) : Z :=
  binarySearch_loop arr target 0 (Cpp.to_int (Z.of_nat (length arr)) - 1).

(** [greedyChange]: the counts per denomination, from the first one on.
    [None] stands for the undefined behaviour of an integer division by
    zero or of [INT_MIN / -1]. *)
Fixpoint greedyChange (amount : Z) (denoms : list Z) : option (list Z) :=
  match denoms with
  | [] => Some []
  | d :: rest =>
      if (d =? 0) || ((amount =? Cpp.INT_MIN) && (d =? -1)) then None
      else
        match greedyChange (Z.rem amount d) rest with
        | Some take => Some (amount ÷ d :: take)
        | None => None
        end
  end.

End Algorithms.

(** ** daa_project.c++, global data and order management

    The global arrays are lists of their fixed size; a loop
    [for (i = 0; i < count; i++)] visits the first [count] slots. *)

Module Monolith.

Import Domain.

Definition MAX_ORDERS : Z := 300.
Definition MAX_TRANSACTIONS : Z := 1000.

Record OrderTransaction := {
  transactionId : Z;
  txOrderId : Z;
  action : string;
  txTimestamp : string;
  txDetails : string
}.

Record Store := {
  now : Z;
  log : Core.Sink;
  orderHeap : list Order;
  orderHeapSize : Z;
  transactions : list OrderTransaction;
  transactionCount : Z
}.

Definition with_log (st : Store) (lg : Core.Sink) : Store :=
  {| now := now st; log := lg; orderHeap := orderHeap st;
     orderHeapSize := orderHeapSize st; transactions := transactions st;
     transactionCount := transactionCount st |}.

Definition with_orderHeap (st : Store) (h : list Order) : Store :=
  {| now := now st; log := log st; orderHeap := h;
     orderHeapSize := orderHeapSize st; transactions := transactions st;
     transactionCount := transactionCount st |}.

Definition with_transactions (st : Store) (ts : list OrderTransaction)
    (n : Z) : Store :=
  {| now := now st; log := log st; orderHeap := orderHeap st;
     orderHeapSize := orderHeapSize st; transactions := ts;
     transactionCount := n |}.

Definition slog (level : LogLevel) (m : string) (st : Store) : Store :=
  with_log st (Core.log (now st) level m (log st)).

(** The orders a loop over [orderHeap] visits. *)
Definition active_orders (st : Store) : list Order :=
  take (Z.to_nat (orderHeapSize st)) (orderHeap st).

(** The first position [i] at or after [start], within the visited slots,
    whose order has the given id, with that order. *)
Fixpoint find_order (id : Z) (l : list Order) (start : nat)
    : option (nat * Order) :=
  match l with
  | [] => None
  | o :: rest =>
      if orderId o =? id then Some (start, o)
      else find_order id rest (S start)
  end.

(** [swap(orderHeap[i], orderHeap[j])] for two slots of the array. *)
Definition swap_slots (h : list Order) (i j : nat) : list Order :=
  match h !! i, h !! j with
  | Some a, Some b => <[i := b]> (<[j := a]> h)
  | _, _ => h
  end.

(** The loop of [orderHeapifyUp] from position [index] on; the parent of a
    position [index > 0] is [(index - 1) >> 1]. *)
Equations? heapifyUp_loop (h : list Order) (index : nat) : list Order
  by wf index lt :=
heapifyUp_loop h 0 := h;
heapifyUp_loop h (S k) with h !! (k / 2)%nat, h !! S k := {
  | Some parent, Some child with priority parent >=? priority child := {
    | true => h
    | false => heapifyUp_loop (swap_slots h (k / 2) (S k)) (k / 2)%nat }
  | _, _ => h }.
Proof.
  pose proof (Nat.Div0.div_le_upper_bound k 2 k ltac:(lia)). lia.
Qed.

Definition orderHeapifyUp (index : Z) (st : Store) : Store :=
  with_orderHeap st (heapifyUp_loop (orderHeap st) (Z.to_nat index)).

(** The insertion that [main] performs under its guard
    [orderHeapSize < MAX_ORDERS]:
    [orderHeap[orderHeapSize++] = o; orderHeapifyUp(orderHeapSize - 1);] *)
Definition push_order (o : Order) (st : Store) : Store :=
  let st1 :=
    {| now := now st; log := log st;
       orderHeap := <[Z.to_nat (orderHeapSize st) := o]> (orderHeap st);
       orderHeapSize := orderHeapSize st + 1;
       transactions := transactions st;
       transactionCount := transactionCount st |} in
  orderHeapifyUp (orderHeapSize st1 - 1) st1.

Definition filterOrdersByStatus (status : string) (st : Store) : list Order :=
  let targetState := OrderFlowManager.stringToState status in
  filter (fun o => Domain.status o = targetState) (active_orders st).

(** [MetricsEngine::calculateOrderCount]. *)
Definition calculateOrderCount (status : string) (st : Store) : Z :=
  let targetState := OrderFlowManager.stringToState status in
  fold_left
    (fun count o =>
       if OrderState_eqb (Domain.status o) targetState then count + 1
       else count)
    (active_orders st) 0.

Definition getCustomerOrderCount (cid : Z) (st : Store) : Z :=
  fold_left
    (fun count o => if customerId o =? cid then count + 1 else count)
    (active_orders st) 0.

Section Transactions.

(** [DateTimeUtil::getCurrentDate] and [getCurrentTime]: the texts that
    [strftime] gives for the local time of a clock value. *)
Variable getCurrentDate : Z -> string.
Variable getCurrentTime : Z -> string.

Definition recordTransaction (oid : Z) (act details : string) (st : Store)
    : Store :=
  if transactionCount st >=? MAX_TRANSACTIONS
  then slog WARNING "Transaction buffer full" st
  else
    let t := {| transactionId := transactionCount st + 1;
                txOrderId := oid; action := act;
                txTimestamp := getCurrentDate (now st) +:+ " "
                                 +:+ getCurrentTime (now st);
                txDetails := details |} in
    slog INFO ("Transaction recorded: " +:+ act)
      (with_transactions st
         (<[Z.to_nat (transactionCount st) := t]> (transactions st))
         (transactionCount st + 1)).

(** [items[j] = newItems[j]] for every [j] below [newItems.size()]. *)
Fixpoint write_items (items newItems : list string) (j : nat) : list string :=
  match newItems with
  | [] => items
  | x :: rest => write_items (<[j := x]> items) rest (S j)
  end.

(** [modifyOrder]; [None] stands for the undefined behaviour of writing
    past the twenty slots of [items]. *)
Definition modifyOrder (oid : Z) (newItems : list string) (newTotal : float)
    (st : Store) : option (Store * bool) :=
  match find_order oid (active_orders st) 0 with
  | None => Some (st, false)
  | Some (i, o) =>
      if negb (OrderState_eqb (status o) CREATED)
         && negb (OrderState_eqb (status o) CONFIRMED)
      then Some (slog WARNING "Cannot modify non-pending order" st, false)
      else if (length (items o) <? length newItems)%nat then None
      else
        let o' := {| orderId := orderId o; customerId := customerId o;
                     tableNumber := tableNumber o;
                     items := write_items (items o) newItems 0;
                     itemCount := Cpp.to_int (Z.of_nat (length newItems));
                     totalAmount := newTotal; priority := priority o;
                     status := status o; orderTime := orderTime o |} in
        Some (recordTransaction oid "Modified"
                "Order items and amount updated"
                (with_orderHeap st (<[i := o']> (orderHeap st))),
              true)
  end.

(** [cancelOrder(orderId, refundAmount)]: the store and the referenced
    amount after the call, and the returned flag. *)
Definition cancelOrder (oid : Z) (refundAmount : float) (st : Store)
    : Store * float * bool :=
  match find_order oid (active_orders st) 0 with
  | None => (st, refundAmount, false)
  | Some (i, o) =>
      if OrderState_eqb (status o) SERVED
      then (slog WARNING "Cannot cancel completed order" st,
            refundAmount, false)
      else
        let refund := totalAmount o in
        let '(o', lg, ok) := tryUpdateStatus (now st) o CANCELLED (log st) in
        let st1 := with_log (with_orderHeap st (<[i := o']> (orderHeap st))) lg in
        if negb ok
        then (slog ERROR "Failed to update order status" st1, refund, false)
        else (recordTransaction oid "Cancelled"
                ("Full refund of $" +:+ Cpp.to_string_double refund) st1,
              refund, true)
  end.

Definition getOrderHistory (oid : Z) (st : Store) : list OrderTransaction :=
  filter (fun t => txOrderId t = oid)
    (take (Z.to_nat (transactionCount st)) (transactions st)).

End Transactions.

End Monolith.

(** ** Sample states

    A freshly started process: empty configuration (the file is absent, so
    every getter answers its default), empty registry with the 24 hour
    default TTL, no subscribed listener. *)

Definition sample_order (st : OrderState) (created : Z) : Models.Order :=
  {| Models.orderId := 100; Models.customerId := 101;
     Models.total := 450%float; Models.priority := 1;
     Models.timestamp := created; Models.state := st |}.

Definition world0 : World :=
  {| clock := 1700000000;
     logger := Logger.initial;
     configMap := ∅;
     lastViolationMessage := "";
     registry := ∅;
     defaultTTLSeconds := 86400;
     heap := fun _ => EventBus.AuditListener;
     listeners := [];
     calls := [] |}.

(** Listeners that fail: one throws a [std::runtime_error], the other
    throws a value that is not a [std::exception]. *)

Definition FailingListener : EventListener :=
  {| getName := "FailingListener";
     onEvent := fun _ _ lg => (lg, Thrown (StdException "audit store down")) |}.

Definition RogueListener : EventListener :=
  {| getName := "RogueListener";
     onEvent := fun _ _ lg => (lg, Thrown OtherException) |}.

Definition sample_heap (a : N) : EventListener :=
  match a with
  | 1%N => EventBus.LoggerListener
  | 2%N => FailingListener
  | 3%N => EventBus.AnalyticsListener
  | 4%N => RogueListener
  | _ => EventBus.AuditListener
  end.

(** [world0] with listener objects at addresses 1 to 5 and the given
    addresses subscribed. *)
Definition world_with (ls : list N) : World :=
  {| clock := clock world0; logger := logger world0;
     configMap := configMap world0;
     lastViolationMessage := lastViolationMessage world0;
     registry := registry world0;
     defaultTTLSeconds := defaultTTLSeconds world0;
     heap := sample_heap; listeners := ls; calls := [] |}.

Definition sample_event : Event :=
  {| type := ORDER_PLACED; entityId := 100; entityType := "Order";
     details := "total=450"; timestamp := 1700000000;
     sourceAction := "OrderService" |}.

(** The order of a command that no rule admits: no customer, negative
    amount, already served. *)


(** ** Vocabulary of the statements *)

(** The transition table of the specification, as a relation. *)
Inductive edge : OrderState -> OrderState -> Prop :=
| edge_created_confirmed : edge CREATED CONFIRMED
| edge_created_cancelled : edge CREATED CANCELLED
| edge_confirmed_preparing : edge CONFIRMED PREPARING
| edge_confirmed_cancelled : edge CONFIRMED CANCELLED
| edge_preparing_ready : edge PREPARING READY
| edge_ready_served : edge READY SERVED
| edge_ready_cancelled : edge READY CANCELLED
| edge_served_refunded : edge SERVED REFUNDED.

(** [w'] differs from [w] at most in the log and in the record of listener
    invocations. *)
Definition same_static (w w' : World) : Prop :=
  clock w' = clock w /\ configMap w' = configMap w /\
  lastViolationMessage w' = lastViolationMessage w /\
  registry w' = registry w /\ defaultTTLSeconds w' = defaultTTLSeconds w /\
  heap w' = heap w /\ listeners w' = listeners w.


(** The invocations that deliver [e] to the listeners [ls], in order. *)
Definition deliveries (e : Event) (ls : list N) : list (N * Event) :=
  map (fun l => (l, e)) ls.

(** No listener of [ls] answers [e] with an exception that is not a
    [std::exception]. *)
Definition only_std_exceptions (w : World) (e : Event) (ls : list N) : Prop :=
  forall l now lg,
    l ∈ ls -> (onEvent (heap w l) e now lg).2 <> Thrown OtherException.

(** How often listener [l] was invoked in [cs]. *)
Definition times_called (l : N) (cs : list (N * Event)) : nat :=
  length (filter (fun c => c.1 = l) cs).

(** Subscribing the listeners [ps] one after the other. *)
Definition subscribe_all (ps : list N) (w : World) : World :=
  foldl (fun acc p => EventBus.subscribe p acc) w ps.

(** How far a state is along the life of an order. *)
Definition stage (s : OrderState) : nat :=
  match s with
  | CREATED => 0 | CONFIRMED => 1 | PREPARING => 2 | READY => 3
  | SERVED => 4 | CANCELLED => 5 | REFUNDED => 5
  end%nat.

(** Calling [updateState] with each requested state in turn: the order at
    the end and the number of calls that returned true. *)
Fixpoint apply_requests (o : Models.Order) (reqs : list OrderState)
    : Models.Order * nat :=
  match reqs with
  | [] => (o, 0%nat)
  | next :: rest =>
      let '(o1, ok) := Models.updateState o next in
      let '(o2, n) := apply_requests o1 rest in
      (o2, if ok then S n else n)
  end.

(** What a rule call may do to the world: nothing when it answers true;
    when it answers false, set a non-empty violation message and nothing
    else. *)
Definition rule_protocol (w : World) (r : World * bool) : Prop :=
  (r.2 = true -> r.1 = w) /\
  (r.2 = false ->
   lastViolationMessage r.1 <> "" /\
   r.1 = with_violation w (lastViolationMessage r.1)).

(** The number that the digits of [d] denote, read after [acc]. *)
Fixpoint uint_value (d : Decimal.uint) (acc : Z) : Z :=
  match d with
  | Decimal.Nil => acc
  | Decimal.D0 r => uint_value r (10 * acc)
  | Decimal.D1 r => uint_value r (10 * acc + 1)
  | Decimal.D2 r => uint_value r (10 * acc + 2)
  | Decimal.D3 r => uint_value r (10 * acc + 3)
  | Decimal.D4 r => uint_value r (10 * acc + 4)
  | Decimal.D5 r => uint_value r (10 * acc + 5)
  | Decimal.D6 r => uint_value r (10 * acc + 6)
  | Decimal.D7 r => uint_value r (10 * acc + 7)
  | Decimal.D8 r => uint_value r (10 * acc + 8)
  | Decimal.D9 r => uint_value r (10 * acc + 9)
  end.

(** The text does not begin with a decimal digit. *)
Definition no_leading_digit (s : string) : Prop :=
  match s with
  | EmptyString => True
  | String c _ => Cpp.digit_of c = None
  end.

(** What the caller of [isDuplicate] sees: the content of its string
    argument after the call and the returned flag. *)
Definition answer (r : World * string * bool) : string * bool := (r.1.2, r.2).

(** The transaction buffer is in order: the count lies within the array,
    and the entries written so far carry the ids 1, 2, 3, ... *)
Definition transactions_in_order (st : Monolith.Store) : Prop :=
  0 <= Monolith.transactionCount st <= Monolith.MAX_TRANSACTIONS /\
  length (Monolith.transactions st) = Z.to_nat Monolith.MAX_TRANSACTIONS /\
  forall k t, (k < Z.to_nat (Monolith.transactionCount st))%nat ->
              Monolith.transactions st !! k = Some t ->
              Monolith.transactionId t = Z.of_nat k + 1.

(** A store with the three sample orders of the demonstration and an empty
    transaction buffer. *)
Definition blank_order : Domain.Order :=
  {| Domain.orderId := 0; Domain.customerId := 0; Domain.tableNumber := 0;
     Domain.items := replicate 20 ""; Domain.itemCount := 0;
     Domain.totalAmount := 0%float; Domain.priority := 0;
     Domain.status := CREATED; Domain.orderTime := 0 |}.

Definition demo_order (id : Z) (st : OrderState) (amount : float)
    : Domain.Order :=
  {| Domain.orderId := id; Domain.customerId := 101; Domain.tableNumber := 4;
     Domain.items := "Pasta" :: replicate 19 ""; Domain.itemCount := 1;
     Domain.totalAmount := amount; Domain.priority := 1;
     Domain.status := st; Domain.orderTime := 1700000000 |}.

Definition blank_transaction : Monolith.OrderTransaction :=
  {| Monolith.transactionId := 0; Monolith.txOrderId := 0;
     Monolith.action := ""; Monolith.txTimestamp := "";
     Monolith.txDetails := "" |}.

Definition demo_store : Monolith.Store :=
  {| Monolith.now := 1700000000;
     Monolith.log := Core.initial;
     Monolith.orderHeap :=
       [demo_order 1 PREPARING 450%float; demo_order 2 READY 120%float;
        demo_order 3 SERVED 80%float] ++ replicate 297 blank_order;
     Monolith.orderHeapSize := 3;
     Monolith.transactions := replicate 1000 blank_transaction;
     Monolith.transactionCount := 0 |}.

(** The amount that the counts [take] of the denominations [denoms] pay. *)
Fixpoint paid (take denoms : list Z) : Z :=
  match take, denoms with
  | t :: take', d :: denoms' => t * d + paid take' denoms'
  | _, _ => 0
  end.

(** The vector is in ascending order. *)
Definition ascending (arr : list Z) : Prop :=
  forall i j x y, (i <= j)%nat -> arr !! i = Some x -> arr !! j = Some y ->
                  x <= y.

(** The first [n] slots form a max-heap on the priorities: no order has a
    higher priority than the order in its parent slot. *)
Definition is_max_heap (h : list Domain.Order) (n : nat) : Prop :=
  forall i p c, (0 < i < n)%nat ->
                h !! ((i - 1) / 2)%nat = Some p -> h !! i = Some c ->
                Domain.priority c <= Domain.priority p.

(** The heap order holds in the first [n] slots except, possibly, between
    slot [j] and its parent; the children of [j] already respect the parent
    of [j]. *)
Definition heap_but (h : list Domain.Order) (n j : nat) : Prop :=
  (forall i p c, (0 < i < n)%nat -> i <> j ->
                 h !! ((i - 1) / 2)%nat = Some p -> h !! i = Some c ->
                 Domain.priority c <= Domain.priority p) /\
  (forall i g c, (0 < i < n)%nat -> ((i - 1) / 2)%nat = j -> (0 < j)%nat ->
                 h !! ((j - 1) / 2)%nat = Some g -> h !! i = Some c ->
                 Domain.priority c <= Domain.priority g).

(** The store at the start of the heap demonstration of [main]: no order in
    use; and an order with a given id and priority. *)
Definition fresh_store : Monolith.Store :=
  {| Monolith.now := 1700000000;
     Monolith.log := Core.initial;
     Monolith.orderHeap := replicate 300 blank_order;
     Monolith.orderHeapSize := 0;
     Monolith.transactions := replicate 1000 blank_transaction;
     Monolith.transactionCount := 0 |}.

Definition vip_order (id prio : Z) : Domain.Order :=
  {| Domain.orderId := id; Domain.customerId := 100 + id;
     Domain.tableNumber := 5; Domain.items := replicate 20 "";
     Domain.itemCount := 0; Domain.totalAmount := 45.5%float;
     Domain.priority := prio; Domain.status := CREATED;
     Domain.orderTime := 1700000000 |}.

(** The store after the three insertions of the heap demonstration of
    [main], with priorities 2, 5 and 1. *)
Definition store_after_demo : Monolith.Store :=
  Monolith.push_order (vip_order 3 1)
    (Monolith.push_order (vip_order 2 5)
       (Monolith.push_order (vip_order 1 2) fresh_store)).

(** * Properties *)

(** ** The life of an order, step by step *)

Example lifecycle_happy_path :
  let o0 := sample_order CREATED 1700000000 in
  let '(o1, ok1) := Models.updateState o0 CONFIRMED in
  let '(o2, ok2) := Models.updateState o1 PREPARING in
  let '(o3, ok3) := Models.updateState o2 READY in
  let '(o4, ok4) := Models.updateState o3 SERVED in
  let '(o5, ok5) := Models.updateState o4 PREPARING in
  let '(o6, ok6) := Models.updateState o5 REFUNDED in
  [ok1; ok2; ok3; ok4; ok5; ok6] = [true; true; true; true; false; true] /\
  Models.state o5 = SERVED /\ Models.state o6 = REFUNDED /\
  (BusinessRules.calculateRefundAmount o4 world0).2 = 450%float.
Proof. repeat split. Qed.

Example stoi_samples :
  map Cpp.stoi ["7"; "  -12abc"; "abc"; "99999999999"; "+5"; "-"] =
    [Some 7; Some (-12); None; None; Some 5; None].
Proof. reflexivity. Qed.

Example to_string_double_samples :
  map Cpp.to_string_double [450%float; (-50)%float; 0.125%float; 0%float] =
    ["450.000000"; "-50.000000"; "0.125000"; "0.000000"].
Proof. reflexivity. Qed.

Example refund_rule_samples :
  (BusinessRules.canRefundOrder
     (sample_order SERVED (clock world0 - 6 * 86400)) world0).2 = true /\
  BusinessRules.canRefundOrder
    (sample_order SERVED (clock world0 - 8 * 86400)) world0
    = (with_violation world0 "Order is outside refund window", false) /\
  BusinessRules.canRefundOrder
    (sample_order READY (clock world0 - 86400)) world0
    = (with_violation world0 "Can only refund SERVED orders", false).
Proof. repeat split. Qed.

(** ** The transition table *)


Lemma both_tables_agree from to :
  Domain.OrderFlowManager.canTransition from to = OrderFSM.canTransition from to.
Proof. by destruct from. Qed.

Lemma canTransition_edge from to :
  OrderFSM.canTransition from to = true <-> edge from to.
Proof.
  split.
  - destruct from, to; simpl; intros H; try discriminate H; constructor.
  - by destruct 1.
Qed.

(** C1: [canTransition] of both state machines is true exactly on the eight
    edges of the transition table and false on every other pair; no state has
    a self-loop, and CANCELLED and REFUNDED have no outgoing edge. *)
Theorem C1_canTransition_table :
  (forall from to,
      (OrderFSM.canTransition from to = true <-> edge from to) /\
      (Domain.OrderFlowManager.canTransition from to = true <-> edge from to) /\
      (~ edge from to ->
       OrderFSM.canTransition from to = false /\
       Domain.OrderFlowManager.canTransition from to = false)) /\
  (forall s,
      OrderFSM.canTransition s s = false /\
      Domain.OrderFlowManager.canTransition s s = false) /\
  (forall x,
      OrderFSM.canTransition CANCELLED x = false /\
      OrderFSM.canTransition REFUNDED x = false /\
      Domain.OrderFlowManager.canTransition CANCELLED x = false /\
      Domain.OrderFlowManager.canTransition REFUNDED x = false).
Proof.
  split; [| split].
  - intros from to.
    pose proof (canTransition_edge from to) as HE.
    pose proof (both_tables_agree from to) as HA.
    split; [exact HE |].
    split; [by rewrite HA |].
    intros Hn. rewrite HA.
    destruct (OrderFSM.canTransition from to); [| done].
    exfalso. apply Hn, HE. reflexivity.
  - intros s. by destruct s.
  - done.
Qed.

(** ** The guarded transition of the order entity *)

Lemma updateState_spec o next :
  Models.updateState o next =
    if OrderFSM.canTransition (Models.state o) next
    then (Models.set_state o next, true) else (o, false).
Proof. reflexivity. Qed.

(** The text of a failure line determines the two states it names. *)
Lemma stateToString_arrow_inj a b c d :
  Domain.OrderFlowManager.stateToString a +:+ " -> "
    +:+ Domain.OrderFlowManager.stateToString b =
  Domain.OrderFlowManager.stateToString c +:+ " -> "
    +:+ Domain.OrderFlowManager.stateToString d ->
  a = c /\ b = d.
Proof.
  destruct a, c; simpl; intros H; try discriminate H;
    destruct b, d; simpl in H; try discriminate H; done.
Qed.

(** C2 (as stated, refuted): the flag that [updateState] returns cannot
    identify the rejected pair of states.  Two different illegal requests
    produce the same report, so no reading of the report recovers
    the from and to states. *)
Lemma C2_report_does_not_identify_states :
  let o1 := {| Models.orderId := 1; Models.customerId := 101;
               Models.total := 450%float; Models.priority := 0;
               Models.timestamp := 0; Models.state := SERVED |} in
  let o2 := Models.set_state o1 CANCELLED in
  OrderFSM.canTransition (Models.state o1) PREPARING = false /\
  OrderFSM.canTransition (Models.state o2) CREATED = false /\
  (Models.updateState o1 PREPARING).2 = (Models.updateState o2 CREATED).2 /\
  ~ (exists report_of : bool -> OrderState * OrderState,
        forall o next,
          OrderFSM.canTransition (Models.state o) next = false ->
          report_of (Models.updateState o next).2 = (Models.state o, next)).
Proof.
  simpl. repeat split.
  intros [f Hf].
  pose proof (Hf {| Models.orderId := 1; Models.customerId := 101;
                    Models.total := 450%float; Models.priority := 0;
                    Models.timestamp := 0; Models.state := SERVED |}
                 PREPARING eq_refl) as H1.
  pose proof (Hf {| Models.orderId := 1; Models.customerId := 101;
                    Models.total := 450%float; Models.priority := 0;
                    Models.timestamp := 0; Models.state := CANCELLED |}
                 CREATED eq_refl) as H2.
  simpl in H1, H2. congruence.
Qed.

(** C2 (amended): both guarded transitions succeed exactly when
    [canTransition] holds.  On success the state field becomes the requested
    state and every other field keeps its value; on failure the order is
    unchanged and the operation returns false.  [updateState] reports nothing
    more; [tryUpdateStatus] also logs one line, a warning on failure whose
    text names the order id and the from and to states (and determines the
    two states), provided the log level lets warnings through. *)
Theorem C2_guarded_transition :
  (forall o next,
      let r := Models.updateState o next in
      (r.2 = true <-> OrderFSM.canTransition (Models.state o) next = true) /\
      (r.2 = true ->
       Models.state r.1 = next /\
       Models.orderId r.1 = Models.orderId o /\
       Models.customerId r.1 = Models.customerId o /\
       Models.total r.1 = Models.total o /\
       Models.priority r.1 = Models.priority o /\
       Models.timestamp r.1 = Models.timestamp o) /\
      (r.2 = false -> r.1 = o)) /\
  (forall now o next lg,
      let r := Domain.tryUpdateStatus now o next lg in
      (r.2 = true <->
       Domain.OrderFlowManager.canTransition (Domain.status o) next = true) /\
      (r.2 = true ->
       Domain.status r.1.1 = next /\
       Domain.orderId r.1.1 = Domain.orderId o /\
       Domain.customerId r.1.1 = Domain.customerId o /\
       Domain.tableNumber r.1.1 = Domain.tableNumber o /\
       Domain.items r.1.1 = Domain.items o /\
       Domain.itemCount r.1.1 = Domain.itemCount o /\
       Domain.totalAmount r.1.1 = Domain.totalAmount o /\
       Domain.priority r.1.1 = Domain.priority o /\
       Domain.orderTime r.1.1 = Domain.orderTime o) /\
      (r.2 = false ->
       r.1.1 = o /\
       (Core.currentLevel lg <> ERROR ->
        Core.lines r.1.2 =
          Core.lines lg ++
          [{| Core.at_time := now; Core.levelStr := "[WARNING]";
              Core.message :=
                "Invalid state transition for order "
                  +:+ Cpp.to_string (Domain.orderId o) +:+ ": "
                  +:+ Domain.OrderFlowManager.stateToString (Domain.status o)
                  +:+ " -> "
                  +:+ Domain.OrderFlowManager.stateToString next |}]))) /\
  (forall a b c d,
      Domain.OrderFlowManager.stateToString a +:+ " -> "
        +:+ Domain.OrderFlowManager.stateToString b =
      Domain.OrderFlowManager.stateToString c +:+ " -> "
        +:+ Domain.OrderFlowManager.stateToString d ->
      a = c /\ b = d).
Proof.
  split; [| split].
  - intros o next r. subst r. rewrite updateState_spec.
    destruct (OrderFSM.canTransition (Models.state o) next); simpl.
    + repeat split; done.
    + repeat split; done.
  - intros now o next lg r. subst r. unfold Domain.tryUpdateStatus.
    destruct (Domain.OrderFlowManager.canTransition (Domain.status o) next);
      simpl.
    + repeat split; done.
    + split; [done |]. split; [done |]. intros _. split; [done |].
      intros Hlvl. unfold Core.log.
      destruct (Core.currentLevel lg); simpl; done.
  - apply stateToString_arrow_inj.
Qed.

(** ** Display names *)

(** C3 (as stated, refuted): an unrecognised string does not make
    [stringToState] fail; it yields CREATED.  The names that
    [OrderFSM::toString] produces are among the strings so coerced. *)
Lemma C3_unknown_string_defaults_to_created :
  ~ In "Pending" Domain.OrderFlowManager.names /\
  Domain.OrderFlowManager.stringToState "Pending" = CREATED /\
  ~ In (OrderFSM.toString SERVED) Domain.OrderFlowManager.names /\
  Domain.OrderFlowManager.stringToState (OrderFSM.toString SERVED) = CREATED.
Proof.
  repeat split; try reflexivity;
    simpl; intros H; repeat (destruct H as [H | H]; [discriminate H |]); done.
Qed.

(** C3 (amended): for every input string that is not the display name of one
    of the seven states, [stringToState] returns CREATED; it has no failing
    result. *)
Theorem C3_stringToState_default s :
  ~ In s Domain.OrderFlowManager.names ->
  Domain.OrderFlowManager.stringToState s = CREATED.
Proof.
  intros Hn. unfold Domain.OrderFlowManager.stringToState.
  repeat match goal with
         | |- context [String.eqb s ?n] =>
             destruct (String.eqb_spec s n) as [-> | _];
             [exfalso; apply Hn; simpl; tauto |]
         end.
  reflexivity.
Qed.

(** The rule at a lower-case spelling of a state name. *)
Lemma C3_stringToState_default_witness :
  ~ In "served" Domain.OrderFlowManager.names /\
  Domain.OrderFlowManager.stringToState "served" = CREATED.
Proof.
  assert (Hn : ~ In "served" Domain.OrderFlowManager.names).
  { simpl. intros H.
    repeat (destruct H as [H | H]; [discriminate H |]). exact H. }
  split; [exact Hn | exact (C3_stringToState_default "served" Hn)].
Defined.

(** C7: parsing the display name of a state gives the state back, for each
    of the seven states. *)
Theorem C7_display_name_roundtrip :
  forall s,
    Domain.OrderFlowManager.stringToState
      (Domain.OrderFlowManager.stateToString s) = s.
Proof. intros s. by destruct s. Qed.

(** ** Business rules *)

Lemma getInt_clock key d w : clock (Config.getInt key d w).1 = clock w.
Proof.
  unfold Config.getInt. destruct (configMap w !! key) as [v |]; [| done].
  by destruct (Cpp.stoi v).
Qed.

Lemma getInt_absent key d w :
  configMap w !! key = None -> Config.getInt key d w = (w, d).
Proof. intros H. unfold Config.getInt. by rewrite H. Qed.

Lemma isWithinRefundWindow_spec o w :
  (BusinessRules.isWithinRefundWindow o w).2 =
    (Cpp.to_int (Cpp.to_time_t (clock w - Models.timestamp o) ÷ 86400)
       <=? (Config.getInt "REFUND_WINDOW_DAYS" 7 w).2).
Proof.
  unfold BusinessRules.isWithinRefundWindow.
  pose proof (getInt_clock "REFUND_WINDOW_DAYS" 7 w) as Hc.
  destruct (Config.getInt "REFUND_WINDOW_DAYS" 7 w) as [w1 d].
  simpl in *. by rewrite Hc.
Qed.

Lemma to_time_t_small z : - 2 ^ 63 <= z < 2 ^ 63 -> Cpp.to_time_t z = z.
Proof. unfold Cpp.to_time_t. intros H. rewrite Z.mod_small; lia. Qed.

(** While the age fits 64 bits the subtraction is exact. *)
Lemma isWithinRefundWindow_in_range o w :
  - 2 ^ 63 <= clock w - Models.timestamp o < 2 ^ 63 ->
  (BusinessRules.isWithinRefundWindow o w).2 =
    (Cpp.to_int ((clock w - Models.timestamp o) ÷ 86400)
       <=? (Config.getInt "REFUND_WINDOW_DAYS" 7 w).2).
Proof.
  intros H. by rewrite isWithinRefundWindow_spec, to_time_t_small.
Qed.

Lemma to_int_small z : Cpp.INT_MIN <= z <= Cpp.INT_MAX -> Cpp.to_int z = z.
Proof.
  unfold Cpp.INT_MIN, Cpp.INT_MAX, Cpp.to_int. intros H.
  rewrite Z.mod_small; lia.
Qed.

(** C5 (as stated, refuted): with the default window of 7 days an order
    aged 7 days and one second is still within the window, although its age
    exceeds 7 * 86400 seconds. *)
Lemma C5_window_counts_whole_days :
  let o := sample_order SERVED (clock world0 - (7 * 86400 + 1)) in
  (Config.getInt "REFUND_WINDOW_DAYS" 7 world0).2 = 7 /\
  (BusinessRules.isWithinRefundWindow o world0).2 = true /\
  ~ (clock world0 - Models.timestamp o <= 7 * 86400).
Proof. simpl. split; [reflexivity |]. split; [reflexivity | lia]. Qed.

(** C5 (amended): for an order created at or before the current time and
    less than 2^31 days ago, [isWithinRefundWindow] returns true if and only
    if the age of the order in whole days, [(now - createdAt) / 86400]
    rounded down, is at most [refundWindowDays], that is, if and only if
    [now - createdAt < (refundWindowDays + 1) * 86400]; [refundWindowDays]
    is the configured [REFUND_WINDOW_DAYS], 7 when none is configured.  On
    such orders, with [refundWindowDays = 7], an order created 6 days ago is
    within the window and one created 8 days ago is not. *)
Theorem C5_refund_window o w :
  0 <= clock w - Models.timestamp o < 2 ^ 31 * 86400 ->
  ((BusinessRules.isWithinRefundWindow o w).2 = true <->
   clock w - Models.timestamp o
     < ((Config.getInt "REFUND_WINDOW_DAYS" 7 w).2 + 1) * 86400) /\
  (configMap w !! "REFUND_WINDOW_DAYS" = None ->
   (Config.getInt "REFUND_WINDOW_DAYS" 7 w).2 = 7 /\
   (clock w - Models.timestamp o = 6 * 86400 ->
    (BusinessRules.isWithinRefundWindow o w).2 = true) /\
   (clock w - Models.timestamp o = 8 * 86400 ->
    (BusinessRules.isWithinRefundWindow o w).2 = false)) /\
  ((BusinessRules.isWithinRefundWindow o w).2 = true <->
   (clock w - Models.timestamp o) / 86400
     <= (Config.getInt "REFUND_WINDOW_DAYS" 7 w).2) /\
  ((Config.getInt "REFUND_WINDOW_DAYS" 7 w).2 = 7 ->
   (clock w - Models.timestamp o = 6 * 86400 ->
    (BusinessRules.isWithinRefundWindow o w).2 = true) /\
   (clock w - Models.timestamp o = 8 * 86400 ->
    (BusinessRules.isWithinRefundWindow o w).2 = false)).
Proof.
  intros Hage.
  assert (Hq : (clock w - Models.timestamp o) ÷ 86400
               = (clock w - Models.timestamp o) / 86400)
    by (apply Z.quot_div_nonneg; lia).
  assert (Hr : 0 <= (clock w - Models.timestamp o) / 86400 < 2 ^ 31).
  { split; [apply Z.div_pos; lia |].
    apply Z.div_lt_upper_bound; lia. }
  assert (Hspec : forall d,
             (Cpp.to_int ((clock w - Models.timestamp o) ÷ 86400) <=? d) = true
             <-> clock w - Models.timestamp o < (d + 1) * 86400).
  { intros d. rewrite Hq, to_int_small
      by (unfold Cpp.INT_MIN, Cpp.INT_MAX; lia).
    rewrite Z.leb_le. split; intros H.
    - apply Z.lt_le_trans with
        (86400 * ((clock w - Models.timestamp o) / 86400 + 1)); [| nia].
      pose proof (Z.mod_pos_bound (clock w - Models.timestamp o) 86400).
      pose proof (Z.div_mod (clock w - Models.timestamp o) 86400). lia.
    - assert ((clock w - Models.timestamp o) / 86400 < d + 1); [| lia].
      apply Z.div_lt_upper_bound; lia. }
  assert (Hfit : - 2 ^ 63 <= clock w - Models.timestamp o < 2 ^ 63) by lia.
  split; [| split; [| split]].
  - rewrite isWithinRefundWindow_in_range by exact Hfit. apply Hspec.
  - intros Habs. rewrite !isWithinRefundWindow_in_range by exact Hfit.
    rewrite (getInt_absent _ _ _ Habs). simpl.
    split; [reflexivity |]. split; intros ->; reflexivity.
  - rewrite isWithinRefundWindow_in_range by exact Hfit.
    rewrite Hq, to_int_small by (unfold Cpp.INT_MIN, Cpp.INT_MAX; lia).
    apply Z.leb_le.
  - intros H7. rewrite !isWithinRefundWindow_in_range by exact Hfit.
    rewrite H7. split; intros ->; reflexivity.
Qed.

(** The rule at an order aged 7 days 23:59:59 under the default window. *)
Lemma C5_refund_window_witness :
  let o := sample_order SERVED (clock world0 - (7 * 86400 + 86399)) in
  (BusinessRules.isWithinRefundWindow o world0).2 = true <->
  clock world0 - Models.timestamp o
    < ((Config.getInt "REFUND_WINDOW_DAYS" 7 world0).2 + 1) * 86400.
Proof.
  refine (proj1 (C5_refund_window
            (sample_order SERVED (clock world0 - (7 * 86400 + 86399)))
            world0 _)).
  simpl. lia.
Defined.

(** Outside that range the day count no longer follows the age: an order
    2^31 days old has day count -2^31 after the narrowing to [int] and is
    within the window; and with a window of -1 days an order stamped one
    second ahead has day count 0, not -1, since the division truncates
    toward zero. *)
Example refund_window_outside_the_range :
  let old := sample_order SERVED (clock world0 - 2 ^ 31 * 86400) in
  let ahead := sample_order SERVED (clock world0 + 1) in
  let w := Config.set "REFUND_WINDOW_DAYS" "-1" world0 in
  (BusinessRules.isWithinRefundWindow old world0).2 = true /\
  (Config.getInt "REFUND_WINDOW_DAYS" 7 w).2 = -1 /\
  (BusinessRules.isWithinRefundWindow ahead w).2 = false /\
  (clock w - Models.timestamp ahead) / 86400 = -1.
Proof. vm_compute. repeat split. Qed.

(** C9: for an order in the PREPARING state the cancellation rule answers
    true (it rejects exactly SERVED, CANCELLED and REFUNDED) while the
    state machine has no edge from PREPARING to CANCELLED, so the guarded
    transition to CANCELLED fails and leaves the order as it is. *)
Theorem C9_cancel_rule_disagrees_with_fsm o w :
  Models.state o = PREPARING ->
  BusinessRules.canCancelOrder o w = (w, true) /\
  OrderFSM.canTransition PREPARING CANCELLED = false /\
  Domain.OrderFlowManager.canTransition PREPARING CANCELLED = false /\
  Models.updateState o CANCELLED = (o, false) /\
  (forall o' w',
      (BusinessRules.canCancelOrder o' w').2 = false <->
      Models.state o' = SERVED \/ Models.state o' = CANCELLED
      \/ Models.state o' = REFUNDED).
Proof.
  intros Hst. unfold BusinessRules.canCancelOrder, Models.updateState.
  rewrite Hst. simpl. repeat split; try done.
  - destruct (Models.state o'); simpl; intros H; try discriminate H; tauto.
  - intros [-> | [-> | ->]]; reflexivity.
Qed.

(** The disagreement on a sample order that is being prepared. *)
Lemma C9_cancel_rule_disagrees_with_fsm_witness :
  BusinessRules.canCancelOrder (sample_order PREPARING 1699990000) world0
    = (world0, true) /\
  Models.updateState (sample_order PREPARING 1699990000) CANCELLED
    = (sample_order PREPARING 1699990000, false).
Proof.
  pose proof (C9_cancel_rule_disagrees_with_fsm
                (sample_order PREPARING 1699990000) world0 eq_refl) as H.
  split; [exact (proj1 H) | exact (proj1 (proj2 (proj2 (proj2 H))))].
Defined.

(** ** Idempotency service *)

(** A stored record answers the check according to its age alone. *)
Lemma isDuplicate_stored rid cached w r :
  registry w !! rid = Some r ->
  IdempotencyService.isDuplicate rid cached w =
    if IdempotencyService.isExpired (clock w) r
    then (with_registry
            (wlog DEBUG ("IdempotencyService: Request " +:+ rid
                           +:+ " record expired") w)
            (delete rid (registry w)), cached, false)
    else (wlog INFO ("IdempotencyService: Duplicate request " +:+ rid
                       +:+ " detected, returning cached result") w,
          resultData r, true).
Proof. intros H. unfold IdempotencyService.isDuplicate. by rewrite H. Qed.

Lemma recordSuccess_lookup rid op P w :
  registry (IdempotencyService.recordSuccess rid op P w) !! rid =
    Some {| requestId := rid; operationType := op; succeeded := true;
            resultData := P; createdAt := clock w;
            ttlSeconds := defaultTTLSeconds w |}.
Proof. simpl. apply lookup_insert_eq. Qed.

(** C6: a request id with no record is not a duplicate.  After
    [recordSuccess] stores payload [P] for it, the check made [dt] seconds
    later answers duplicate with the cached payload [P] as long as
    [dt <= ttlSeconds], leaving the registry as it is; once more than
    [ttlSeconds] have passed it answers not-a-duplicate, leaves the caller's
    string untouched and erases the record, so the id is absent again. *)
Theorem C6_idempotency_lifecycle rid op P cached w :
  registry w !! rid = None ->
  IdempotencyService.isDuplicate rid cached w = (w, cached, false) /\
  (forall dt,
      let w1 := IdempotencyService.recordSuccess rid op P w in
      let r := IdempotencyService.isDuplicate rid cached (advance dt w1) in
      (dt <= defaultTTLSeconds w ->
       r.2 = true /\ r.1.2 = P /\ registry r.1.1 = registry w1) /\
      (defaultTTLSeconds w < dt ->
       r.2 = false /\ r.1.2 = cached /\
       registry r.1.1 !! rid = None /\
       registry r.1.1 = registry w /\
       (IdempotencyService.isDuplicate rid cached r.1.1).2 = false)).
Proof.
  intros Hnone. split.
  - unfold IdempotencyService.isDuplicate. by rewrite Hnone.
  - intros dt w1 r.
    assert (Hl : registry (advance dt w1) !! rid =
                 Some {| requestId := rid; operationType := op;
                         succeeded := true; resultData := P;
                         createdAt := clock w;
                         ttlSeconds := defaultTTLSeconds w |})
      by apply recordSuccess_lookup.
    subst r. rewrite (isDuplicate_stored _ _ _ _ Hl).
    unfold IdempotencyService.isExpired. simpl.
    split; intros Hdt.
    + destruct (Z.gtb_spec (clock w + dt - clock w) (defaultTTLSeconds w));
        [lia |]. done.
    + destruct (Z.gtb_spec (clock w + dt - clock w) (defaultTTLSeconds w));
        [| lia]. simpl.
      assert (Hd : delete rid (<[rid:=
                 {| requestId := rid; operationType := op; succeeded := true;
                    resultData := P; createdAt := clock w;
                    ttlSeconds := defaultTTLSeconds w |}]> (registry w))
                   = registry w).
      { rewrite delete_insert_eq. by apply delete_id. }
      repeat split.
      * rewrite Hd. exact Hnone.
      * exact Hd.
      * unfold IdempotencyService.isDuplicate. simpl. by rewrite Hd, Hnone.
Qed.

(** The scenario of the test suite for request id R1: not a duplicate at
    first, a duplicate with the cached payload up to 24 hours after the
    record, not a duplicate one second later. *)
Lemma C6_idempotency_lifecycle_witness :
  let w1 := IdempotencyService.recordSuccess "R1" "place_order"
              "OrderID=1|Amount=100.00" world0 in
  IdempotencyService.isDuplicate "R1" "" world0 = (world0, "", false) /\
  (IdempotencyService.isDuplicate "R1" "" (advance 86400 w1)).2 = true /\
  (IdempotencyService.isDuplicate "R1" "" (advance 86400 w1)).1.2
    = "OrderID=1|Amount=100.00" /\
  (IdempotencyService.isDuplicate "R1" "" (advance 86401 w1)).2 = false.
Proof.
  pose proof (C6_idempotency_lifecycle "R1" "place_order"
                "OrderID=1|Amount=100.00" "" world0 eq_refl) as [H0 H].
  split; [exact H0 |].
  pose proof (proj1 (H 86400) ltac:(simpl; lia)) as [Ha [Hb _]].
  pose proof (proj2 (H 86401) ltac:(simpl; lia)) as [Hc _].
  split; [exact Ha |]. split; [exact Hb | exact Hc].
Defined.

(** ** Event bus *)

Lemma same_static_refl w : same_static w w.
Proof. by repeat split. Qed.

Lemma same_static_trans w1 w2 w3 :
  same_static w1 w2 -> same_static w2 w3 -> same_static w1 w3.
Proof.
  unfold same_static.
  intros (? & ? & ? & ? & ? & ? & ?) (? & ? & ? & ? & ? & ? & ?).
  repeat split; congruence.
Qed.

Lemma same_static_wlog lvl m w : same_static w (wlog lvl m w).
Proof. by repeat split. Qed.

Lemma dispatch_frame ls e : forall w, same_static w (EventBus.dispatch ls e w).1.
Proof.
  induction ls as [| l rest IH]; intros w; simpl.
  - apply same_static_refl.
  - destruct (onEvent (heap w l) e (clock w) (logger w)) as [lg [[] | [what |]]];
      simpl.
    + eapply same_static_trans; [| apply IH]. by repeat split.
    + eapply same_static_trans; [| apply IH]. by repeat split.
    + by repeat split.
Qed.

(** Whatever the listeners do, [dispatch] invokes a prefix of the list, each
    listener once, in order. *)
Lemma dispatch_prefix ls e : forall w,
  exists k, calls (EventBus.dispatch ls e w).1
            = calls w ++ deliveries e (take k ls).
Proof.
  induction ls as [| l rest IH]; intros w; simpl.
  - exists 0%nat. simpl. by rewrite app_nil_r.
  - destruct (onEvent (heap w l) e (clock w) (logger w)) as [lg [[] | [what |]]];
      simpl.
    + destruct (IH (with_calls (with_logger w lg) (calls w ++ [(l, e)])))
        as [k Hk].
      exists (S k). rewrite Hk. simpl. by rewrite <- app_assoc.
    + destruct (IH (wlog ERROR
                      ("EventBus: Listener '" +:+ getName (heap w l)
                         +:+ "' threw exception: " +:+ what)
                      (with_calls (with_logger w lg) (calls w ++ [(l, e)]))))
        as [k Hk].
      exists (S k). rewrite Hk. simpl. by rewrite <- app_assoc.
    + exists 1%nat. reflexivity.
Qed.

Lemma dispatch_all ls e : forall w,
  only_std_exceptions w e ls ->
  (EventBus.dispatch ls e w).2 = Returned tt /\
  calls (EventBus.dispatch ls e w).1 = calls w ++ deliveries e ls.
Proof.
  induction ls as [| l rest IH]; intros w Hstd; simpl.
  - by rewrite app_nil_r.
  - pose proof (Hstd l (clock w) (logger w) ltac:(left)) as Hl.
    assert (Hrest : forall w', heap w' = heap w ->
                               only_std_exceptions w' e rest).
    { intros w' Hh l' now lg Hin. rewrite Hh. apply Hstd. by right. }
    destruct (onEvent (heap w l) e (clock w) (logger w)) as [lg [[] | [what |]]];
      simpl in *.
    + destruct (IH (with_calls (with_logger w lg) (calls w ++ [(l, e)])))
        as [Hr Hc]; [by apply Hrest |].
      split; [exact Hr |]. rewrite Hc. simpl. by rewrite <- app_assoc.
    + destruct (IH (wlog ERROR
                      ("EventBus: Listener '" +:+ getName (heap w l)
                         +:+ "' threw exception: " +:+ what)
                      (with_calls (with_logger w lg) (calls w ++ [(l, e)]))))
        as [Hr Hc]; [by apply Hrest |].
      split; [exact Hr |]. rewrite Hc. simpl. by rewrite <- app_assoc.
    + done.
Qed.

Lemma dispatch_thrown ls e : forall w ex,
  (EventBus.dispatch ls e w).2 = Thrown ex -> ex = OtherException.
Proof.
  induction ls as [| l rest IH]; intros w ex; simpl; [discriminate |].
  destruct (onEvent (heap w l) e (clock w) (logger w)) as [lg [[] | [what |]]];
    simpl; try apply IH.
  by intros [= <-].
Qed.

Lemma emit_thrown e w ex :
  (EventBus.emit e w).2 = Thrown ex -> ex = OtherException.
Proof. unfold EventBus.emit. apply dispatch_thrown. Qed.

Lemma emit_frame e w : same_static w (EventBus.emit e w).1.
Proof.
  unfold EventBus.emit.
  eapply same_static_trans; [| apply dispatch_frame]. apply same_static_wlog.
Qed.

Lemma emit_prefix e w :
  exists k, calls (EventBus.emit e w).1
            = calls w ++ deliveries e (take k (listeners w)).
Proof.
  unfold EventBus.emit. set (w1 := wlog DEBUG _ w).
  destruct (dispatch_prefix (listeners w1) e w1) as [k Hk].
  exists k. exact Hk.
Qed.

Lemma emit_all e w :
  only_std_exceptions w e (listeners w) ->
  (EventBus.emit e w).2 = Returned tt /\
  calls (EventBus.emit e w).1 = calls w ++ deliveries e (listeners w).
Proof.
  intros Hstd. unfold EventBus.emit. set (w1 := wlog DEBUG _ w).
  exact (dispatch_all (listeners w1) e w1 Hstd).
Qed.




Lemma subscribe_null w : EventBus.subscribe nullptr w = w.
Proof. reflexivity. Qed.

Lemma subscribe_present w l : l ∈ listeners w -> EventBus.subscribe l w = w.
Proof.
  intros Hin. unfold EventBus.subscribe.
  destruct (N.eqb l nullptr); [done |].
  by rewrite bool_decide_eq_true_2.
Qed.

Lemma subscribe_listeners w l :
  listeners (EventBus.subscribe l w) =
    if N.eqb l nullptr then listeners w
    else if bool_decide (l ∈ listeners w) then listeners w
    else listeners w ++ [l].
Proof.
  unfold EventBus.subscribe.
  destruct (N.eqb l nullptr); [done |].
  by destruct (bool_decide (l ∈ listeners w)).
Qed.

Lemma subscribe_calls w l : calls (EventBus.subscribe l w) = calls w.
Proof.
  unfold EventBus.subscribe.
  destruct (N.eqb l nullptr); [done |].
  by destruct (bool_decide (l ∈ listeners w)).
Qed.

Lemma subscribe_NoDup w l :
  NoDup (listeners w) -> NoDup (listeners (EventBus.subscribe l w)).
Proof.
  intros Hnd. rewrite subscribe_listeners.
  destruct (N.eqb l nullptr); [done |].
  destruct (bool_decide_reflect (l ∈ listeners w)) as [Hin | Hnin]; [done |].
  apply NoDup_app. split; [done |]. split; [| apply NoDup_singleton].
  intros x Hx Hx'. apply list_elem_of_singleton in Hx'. by subst x.
Qed.

Lemma subscribe_all_inv ps : forall w,
  NoDup (listeners w) ->
  NoDup (listeners (subscribe_all ps w)) /\
  calls (subscribe_all ps w) = calls w.
Proof.
  induction ps as [| p ps IH]; intros w Hnd; simpl; [done |].
  destruct (IH (EventBus.subscribe p w)) as [H1 H2];
    [by apply subscribe_NoDup |].
  split; [exact H1 |]. by rewrite H2, subscribe_calls.
Qed.

Lemma times_called_absent e l ls :
  l ∉ ls -> times_called l (deliveries e ls) = 0%nat.
Proof.
  unfold times_called, deliveries.
  induction ls as [| x ls IH]; intros Hn; simpl; [done |].
  apply not_elem_of_cons in Hn as [Hne Hn].
  rewrite filter_cons_False by (simpl; congruence). by apply IH.
Qed.

Lemma times_called_NoDup e l ls :
  NoDup ls -> (times_called l (deliveries e ls) <= 1)%nat.
Proof.
  induction 1 as [| x ls Hx Hnd IH]; simpl; [unfold times_called; simpl; lia |].
  destruct (decide (x = l)) as [-> | Hne].
  - unfold times_called, deliveries in *. simpl.
    rewrite filter_cons_True by done. simpl.
    pose proof (times_called_absent e l ls Hx) as H0.
    unfold times_called, deliveries in H0. rewrite H0. lia.
  - unfold times_called, deliveries in *. simpl.
    by rewrite filter_cons_False by (simpl; congruence).
Qed.

(** C10: subscribing the null pointer, or a listener that is already in the
    listener vector, leaves the bus (vector and log) exactly as it was, so
    subscribing the same listener twice is the same as subscribing it once.
    The vector therefore never holds a listener twice, and however often
    listeners are subscribed, one [emit] invokes each of them at most once. *)
Theorem C10_subscribe_idempotent_null_safe :
  (forall w, EventBus.subscribe nullptr w = w) /\
  (forall w l, l ∈ listeners w -> EventBus.subscribe l w = w) /\
  (forall w l,
      EventBus.subscribe l (EventBus.subscribe l w) = EventBus.subscribe l w) /\
  (forall w ps e l,
      let w' := subscribe_all ps (with_listeners w []) in
      NoDup (listeners w') /\
      exists delivered,
        calls (EventBus.emit e w').1 = calls w ++ delivered /\
        (times_called l delivered <= 1)%nat).
Proof.
  split; [exact subscribe_null |]. split; [exact subscribe_present |]. split.
  - intros w l. destruct (N.eqb l nullptr) eqn:Hnull.
    + assert (Hid : forall w0, EventBus.subscribe l w0 = w0)
        by (intros w0; unfold EventBus.subscribe; by rewrite Hnull).
      by rewrite !Hid.
    + destruct (decide (l ∈ listeners w)) as [Hin | Hnin].
      * rewrite (subscribe_present w l Hin). by apply subscribe_present.
      * apply subscribe_present.
        rewrite subscribe_listeners, Hnull, bool_decide_eq_false_2 by done.
        apply elem_of_app. right. by left.
  - intros w ps e l w'.
    destruct (subscribe_all_inv ps (with_listeners w [])) as [Hnd Hc];
      [simpl; apply NoDup_nil_2 |].
    split; [exact Hnd |].
    unfold EventBus.emit. set (w1 := wlog DEBUG _ w').
    destruct (dispatch_prefix (listeners w1) e w1) as [k Hk].
    exists (deliveries e (take k (listeners w1))).
    split.
    + rewrite Hk. simpl. subst w'. by rewrite Hc.
    + apply times_called_NoDup.
      apply (sublist_NoDup _ (listeners w1)); [exact Hnd | apply sublist_take].
Qed.

(** ** Commands *)

Section CommandProperties.

Variable indeterminate : Z.

Let make_event := CommandPattern.make_event indeterminate.
Let execute := CommandPattern.execute indeterminate.

Lemma emit_and_return_spec c t w0 w :
  same_static w0 w -> calls w = calls w0 ->
  let e := make_event t w0 in
  let r := CommandPattern.emit_and_return indeterminate c t w in
  same_static w0 r.1 /\
  (exists k, calls r.1 = calls w0 ++ deliveries e (take k (listeners w0))) /\
  (only_std_exceptions w0 e (listeners w0) ->
   r.2 = Returned (c, true) /\
   calls r.1 = calls w0 ++ deliveries e (listeners w0)) /\
  (forall c' ok, r.2 = Returned (c', ok) -> c' = c /\ ok = true).
Proof.
  intros Hs Hcalls e r.
  assert (He : CommandPattern.make_event indeterminate t w = e).
  { subst e make_event. unfold CommandPattern.make_event.
    destruct Hs as (-> & _). reflexivity. }
  subst r. unfold CommandPattern.emit_and_return. rewrite He.
  pose proof (emit_frame e w) as Hf.
  pose proof (emit_prefix e w) as [k Hk].
  pose proof (emit_all e w) as Hall.
  destruct Hs as (Hclk & Hcfg & Hmsg & Hreg & Httl & Hheap & Hls).
  rewrite Hcalls, Hls in Hk. rewrite Hcalls, Hls in Hall.
  assert (Hstd : only_std_exceptions w0 e (listeners w0) ->
                 only_std_exceptions w e (listeners w0)).
  { intros H l now lg Hin. rewrite Hheap. by apply H. }
  destruct (EventBus.emit e w) as [w' [[] | ex]]; simpl in *.
  - split.
    { eapply same_static_trans; [| exact Hf]. by repeat split. }
    split; [by exists k |]. split.
    + intros H. split; [done |]. by apply Hall, Hstd.
    + intros c' ok [= <- <-]. done.
  - split.
    { eapply same_static_trans; [| exact Hf]. by repeat split. }
    split; [by exists k |]. split.
    + intros H. by destruct (Hall (Hstd H)).
    + intros c' ok [=].
Qed.




End CommandProperties.


(** [ConfirmOrderCommand::execute] with the default log level and no
    listener subscribed: the log holds the one INFO line of the command (the
    DEBUG line of [emit] is below the level). *)
Example execute_writes_its_log_line :
  let cmd := CommandPattern.ConfirmOrderCommand 42 in
  let r := CommandPattern.execute 0 cmd world0 in
  r.2 = Returned (cmd, true) /\
  Logger.lines (logger r.1)
  = Logger.lines (logger world0)
      ++ [{| Logger.tag := "[INFO]"; Logger.at_time := clock world0;
             Logger.msg := "ConfirmOrderCommand #42" |}].
Proof. vm_compute. split; reflexivity. Qed.

(** [CommandInvoker::execute] on the null pointer. *)
Example invoker_rejects_the_null_pointer :
  CommandPattern.invoker_execute 0 None [] world0
  = (world0, Returned ([], false)).
Proof. reflexivity. Qed.

(** * Further properties of the code *)

(** ** Shape of the state machine *)

Lemma canTransition_stage from to :
  OrderFSM.canTransition from to = true -> (stage from < stage to)%nat.
Proof. destruct from, to; simpl; intros H; try discriminate H; lia. Qed.

Lemma stage_le_5 s : (stage s <= 5)%nat.
Proof. destruct s; simpl; lia. Qed.

Lemma apply_requests_stage reqs : forall o,
  (stage (Models.state o) + (apply_requests o reqs).2
   <= stage (Models.state (apply_requests o reqs).1))%nat.
Proof.
  induction reqs as [| next rest IH]; intros o; simpl; [lia |].
  rewrite updateState_spec.
  destruct (OrderFSM.canTransition (Models.state o) next) eqn:Hc.
  - specialize (IH (Models.set_state o next)).
    destruct (apply_requests (Models.set_state o next) rest) as [o2 n].
    simpl in *. apply canTransition_stage in Hc. lia.
  - specialize (IH o). destruct (apply_requests o rest) as [o2 n].
    simpl in *. lia.
Qed.

(** X1: every accepted transition moves the order strictly forward, so
    whatever states are requested and in whatever order, [updateState]
    accepts at most five of them over the life of an order, and at most
    [5 - stage] once the order has reached a given stage. *)
Theorem X1_at_most_five_transitions o reqs :
  (stage (Models.state o) + (apply_requests o reqs).2 <= 5)%nat /\
  (stage (Models.state o) <= stage (Models.state (apply_requests o reqs).1))%nat.
Proof.
  pose proof (apply_requests_stage reqs o) as H.
  pose proof (stage_le_5 (Models.state (apply_requests o reqs).1)). lia.
Qed.

(** X2: CANCELLED and REFUNDED are absorbing for the order entity: no
    sequence of [updateState] calls changes such an order, and none of the
    calls returns true. *)
Theorem X2_terminal_orders_never_change o reqs :
  Models.state o = CANCELLED \/ Models.state o = REFUNDED ->
  apply_requests o reqs = (o, 0%nat).
Proof.
  intros Hst. induction reqs as [| next rest IH]; simpl; [done |].
  rewrite updateState_spec.
  assert (Hc : OrderFSM.canTransition (Models.state o) next = false)
    by (destruct Hst as [-> | ->]; reflexivity).
  rewrite Hc, IH. reflexivity.
Qed.

Lemma X2_terminal_orders_never_change_witness :
  apply_requests (sample_order REFUNDED 1700000000)
    [CREATED; SERVED; CANCELLED; REFUNDED]
  = (sample_order REFUNDED 1700000000, 0%nat).
Proof.
  apply (X2_terminal_orders_never_change
           (sample_order REFUNDED 1700000000)
           [CREATED; SERVED; CANCELLED; REFUNDED]).
  right. reflexivity.
Defined.

(** X3: every state can be reached from CREATED by [updateState] calls that
    are all accepted, and only the state field differs at the end. *)
Theorem X3_every_state_reachable_from_created o s :
  exists reqs,
    apply_requests (Models.set_state o CREATED) reqs
    = (Models.set_state o s, length reqs).
Proof.
  destruct s.
  - exists []. reflexivity.
  - exists [CONFIRMED]. reflexivity.
  - exists [CONFIRMED; PREPARING]. reflexivity.
  - exists [CONFIRMED; PREPARING; READY]. reflexivity.
  - exists [CONFIRMED; PREPARING; READY; SERVED]. reflexivity.
  - exists [CANCELLED]. reflexivity.
  - exists [CONFIRMED; PREPARING; READY; SERVED; REFUNDED]. reflexivity.
Qed.

(** X4: the names of [OrderFSM::toString] and of [stateToString] are
    pairwise distinct, so a printed name identifies its state; the two
    tables never agree on a name, which is why no name of [toString] is
    recognised by [stringToState]. *)
Theorem X4_display_names_identify_states a b :
  (OrderFSM.toString a = OrderFSM.toString b <-> a = b) /\
  (Domain.OrderFlowManager.stateToString a
   = Domain.OrderFlowManager.stateToString b <-> a = b) /\
  OrderFSM.toString a <> Domain.OrderFlowManager.stateToString b /\
  Domain.OrderFlowManager.stringToState (OrderFSM.toString a) = CREATED.
Proof.
  split; [| split; [| split]].
  - split; [| intros ->; reflexivity].
    destruct a, b; simpl; intros H; try discriminate H; reflexivity.
  - split; [| intros ->; reflexivity].
    destruct a, b; simpl; intros H; try discriminate H; reflexivity.
  - destruct a, b; simpl; intros H; discriminate H.
  - by destruct a.
Qed.

(** ** Business rules and the state machine *)

(** X5: the serving and refund rules agree with the state machine: the
    serve rule holds exactly when the edge to SERVED exists, a granted
    refund always has its edge to REFUNDED, and the modification rule holds
    exactly in CREATED and CONFIRMED. *)
Theorem X5_rules_follow_the_state_machine o w :
  (BusinessRules.canServeOrder o w).2 = OrderFSM.canTransition (Models.state o) SERVED /\
  ((BusinessRules.canRefundOrder o w).2 = true ->
   OrderFSM.canTransition (Models.state o) REFUNDED = true /\
   (BusinessRules.isWithinRefundWindow o w).2 = true) /\
  ((BusinessRules.canModifyOrder o w).2 = true <->
   Models.state o = CREATED \/ Models.state o = CONFIRMED).
Proof.
  split; [| split].
  - unfold BusinessRules.canServeOrder. by destruct (Models.state o).
  - unfold BusinessRules.canRefundOrder.
    destruct (Models.state o); simpl; try discriminate.
    destruct (BusinessRules.isWithinRefundWindow o w) as [w1 ok].
    destruct ok; simpl; [done | discriminate].
  - unfold BusinessRules.canModifyOrder.
    destruct (Models.state o); simpl; split; intros H;
      try discriminate H; try tauto;
      destruct H as [H | H]; discriminate H.
Qed.

(** X6: wherever the state machine has an edge to CANCELLED the
    cancellation rule allows it, and PREPARING is the only state in which
    the rule allows a cancellation that the state machine refuses. *)
Theorem X6_cancel_rule_gap_is_preparing_only o w :
  (OrderFSM.canTransition (Models.state o) CANCELLED = true ->
   (BusinessRules.canCancelOrder o w).2 = true) /\
  ((BusinessRules.canCancelOrder o w).2 = true /\
   OrderFSM.canTransition (Models.state o) CANCELLED = false
   <-> Models.state o = PREPARING).
Proof.
  unfold BusinessRules.canCancelOrder.
  destruct (Models.state o); simpl; repeat split;
    try done; try (intros [H1 H2]; discriminate); try discriminate.
Qed.

Ltac rule_cases :=
  unfold rule_protocol; simpl; split; intros H; try discriminate H;
  try reflexivity; (split; [discriminate | reflexivity]).

Lemma canCreateOrder_protocol w cid amount :
  rule_protocol w (BusinessRules.canCreateOrder cid amount w).
Proof.
  unfold BusinessRules.canCreateOrder.
  destruct (cid <=? 0); [rule_cases |].
  destruct (PrimFloat.leb amount 0); rule_cases.
Qed.

Lemma canModifyOrder_protocol w o :
  rule_protocol w (BusinessRules.canModifyOrder o w).
Proof.
  unfold BusinessRules.canModifyOrder. destruct (Models.state o); rule_cases.
Qed.

Lemma canCancelOrder_protocol w o :
  rule_protocol w (BusinessRules.canCancelOrder o w).
Proof.
  unfold BusinessRules.canCancelOrder. destruct (Models.state o); rule_cases.
Qed.

Lemma canServeOrder_protocol w o :
  rule_protocol w (BusinessRules.canServeOrder o w).
Proof.
  unfold BusinessRules.canServeOrder. destruct (Models.state o); rule_cases.
Qed.

Lemma canApplyLoyaltyPoints_protocol w cid pts :
  rule_protocol w (BusinessRules.canApplyLoyaltyPoints cid pts w).
Proof.
  unfold BusinessRules.canApplyLoyaltyPoints.
  destruct (cid <=? 0); [rule_cases |]. destruct (pts <? 0); rule_cases.
Qed.

Lemma canReduceInventory_protocol w item q :
  rule_protocol w (BusinessRules.canReduceInventory item q w).
Proof.
  unfold BusinessRules.canReduceInventory.
  destruct (String.eqb item ""); [rule_cases |].
  destruct (q <=? 0); rule_cases.
Qed.

Lemma isValidPaymentAmount_protocol w amount :
  rule_protocol w (BusinessRules.isValidPaymentAmount amount w).
Proof.
  unfold BusinessRules.isValidPaymentAmount.
  destruct (PrimFloat.leb amount 0); [rule_cases |].
  destruct (PrimFloat.ltb 1000000 amount); rule_cases.
Qed.

Lemma canRefundOrder_protocol w o :
  let r := BusinessRules.canRefundOrder o w in
  let w0 := (Config.getInt "REFUND_WINDOW_DAYS" 7 w).1 in
  (Models.state o <> SERVED -> rule_protocol w r) /\
  (Models.state o = SERVED -> rule_protocol w0 r) /\
  w0 = match configMap w !! "REFUND_WINDOW_DAYS" with
       | None => w
       | Some v =>
           match Cpp.stoi v with
           | Some _ => w
           | None =>
               wlog WARNING
                 "Invalid integer config value for REFUND_WINDOW_DAYS" w
           end
       end.
Proof.
  intros r w0. subst r w0. split; [| split].
  - intros Hs. unfold BusinessRules.canRefundOrder.
    destruct (Models.state o); try done; rule_cases.
  - intros Hs. unfold BusinessRules.canRefundOrder. rewrite Hs. simpl.
    unfold BusinessRules.isWithinRefundWindow.
    destruct (Config.getInt "REFUND_WINDOW_DAYS" 7 w) as [w1 d]. simpl.
    destruct (_ <=? d); rule_cases.
  - unfold Config.getInt.
    destruct (configMap w !! "REFUND_WINDOW_DAYS") as [v |]; [| done].
    by destruct (Cpp.stoi v).
Qed.

(** X7: the rule checks [canCreateOrder], [canModifyOrder],
    [canCancelOrder], [canServeOrder], [canApplyLoyaltyPoints],
    [canReduceInventory] and [isValidPaymentAmount] change nothing when
    they pass, and nothing but the violation message, which they set to a
    non-empty text, when they fail.  [canRefundOrder] does the same on an
    order that is not SERVED.  On a SERVED order it reads
    [REFUND_WINDOW_DAYS] through [Config::getInt], which writes a warning
    to the log when the stored value is no integer; next to that warning
    it, too, changes nothing when it passes and only the violation message
    when it fails.  A check that passes leaves the message of an earlier
    failure in place: after a failed [canModifyOrder] and a passing
    [canCancelOrder], [getViolationMessage] still reports the failure of
    [canModifyOrder]. *)
Theorem X7_rules_set_message_only_on_failure w :
  (forall cid amount, rule_protocol w (BusinessRules.canCreateOrder cid amount w)) /\
  (forall o, rule_protocol w (BusinessRules.canModifyOrder o w)) /\
  (forall o, rule_protocol w (BusinessRules.canCancelOrder o w)) /\
  (forall o, rule_protocol w (BusinessRules.canServeOrder o w)) /\
  (forall cid pts, rule_protocol w (BusinessRules.canApplyLoyaltyPoints cid pts w)) /\
  (forall item q, rule_protocol w (BusinessRules.canReduceInventory item q w)) /\
  (forall amount, rule_protocol w (BusinessRules.isValidPaymentAmount amount w)) /\
  (forall o1 o2,
      (BusinessRules.canModifyOrder o1 w).2 = false ->
      let w1 := (BusinessRules.canModifyOrder o1 w).1 in
      (BusinessRules.canCancelOrder o2 w1).2 = true ->
      BusinessRules.getViolationMessage (BusinessRules.canCancelOrder o2 w1).1
      = "Cannot modify order in " +:+ OrderFSM.toString (Models.state o1)
          +:+ " state") /\
  (forall o,
      let r := BusinessRules.canRefundOrder o w in
      let w0 := (Config.getInt "REFUND_WINDOW_DAYS" 7 w).1 in
      (Models.state o <> SERVED -> rule_protocol w r) /\
      (Models.state o = SERVED -> rule_protocol w0 r) /\
      w0 = match configMap w !! "REFUND_WINDOW_DAYS" with
           | None => w
           | Some v =>
               match Cpp.stoi v with
               | Some _ => w
               | None =>
                   wlog WARNING
                     "Invalid integer config value for REFUND_WINDOW_DAYS" w
               end
           end).
Proof.
  split; [intros; apply canCreateOrder_protocol |].
  split; [intros; apply canModifyOrder_protocol |].
  split; [intros; apply canCancelOrder_protocol |].
  split; [intros; apply canServeOrder_protocol |].
  split; [intros; apply canApplyLoyaltyPoints_protocol |].
  split; [intros; apply canReduceInventory_protocol |].
  split; [intros; apply isValidPaymentAmount_protocol |].
  split; [| intros o; apply canRefundOrder_protocol].
  intros o1 o2. unfold BusinessRules.canModifyOrder, BusinessRules.canCancelOrder.
  destruct (Models.state o1); simpl; intros H1; try discriminate H1;
    destruct (Models.state o2); simpl; intros H2; try discriminate H2;
    reflexivity.
Qed.

(** ** Refund rules *)

Lemma isWithinRefundWindow_world o w :
  (BusinessRules.isWithinRefundWindow o w).1
  = (Config.getInt "REFUND_WINDOW_DAYS" 7 w).1.
Proof.
  unfold BusinessRules.isWithinRefundWindow.
  by destruct (Config.getInt "REFUND_WINDOW_DAYS" 7 w).
Qed.

(** X8: the refund amount is the order total inside the window and half of
    it outside, whatever the state of the order (the state is never
    read); an order that [canRefundOrder] admits is refunded in full. *)
Theorem X8_refund_amount o w :
  (BusinessRules.calculateRefundAmount o w).2
  = (if (BusinessRules.isWithinRefundWindow o w).2
     then Models.total o else (Models.total o * 0.5)%float) /\
  (forall s,
      BusinessRules.calculateRefundAmount (Models.set_state o s) w
      = BusinessRules.calculateRefundAmount o w) /\
  ((BusinessRules.canRefundOrder o w).2 = true ->
   (BusinessRules.calculateRefundAmount o w).2 = Models.total o).
Proof.
  assert (H1 : (BusinessRules.calculateRefundAmount o w).2
               = (if (BusinessRules.isWithinRefundWindow o w).2
                  then Models.total o else (Models.total o * 0.5)%float)).
  { unfold BusinessRules.calculateRefundAmount.
    destruct (BusinessRules.isWithinRefundWindow o w) as [w1 ok].
    by destruct ok. }
  split; [exact H1 |]. split.
  - intros s. reflexivity.
  - intros Hok. rewrite H1.
    unfold BusinessRules.canRefundOrder in Hok.
    destruct (negb (OrderState_eqb (Models.state o) SERVED));
      [discriminate Hok |].
    destruct (BusinessRules.isWithinRefundWindow o w) as [w1 ok].
    by destruct ok.
Qed.

(** X9: for orders less than 2^31 days old the refund window is monotone
    in the age of the order: if an order is within the window, every order
    placed later (and not after the current time) is too.  An order stamped
    at most 2^31 days in the future is within every non-negative window. *)
Theorem X9_refund_window_monotone o1 o2 w :
  clock w - Models.timestamp o1 < 2 ^ 31 * 86400 ->
  (0 <= clock w - Models.timestamp o2 <= clock w - Models.timestamp o1 ->
   (BusinessRules.isWithinRefundWindow o1 w).2 = true ->
   (BusinessRules.isWithinRefundWindow o2 w).2 = true) /\
  (- (2 ^ 31 * 86400) <= clock w - Models.timestamp o1 <= 0 ->
   0 <= (Config.getInt "REFUND_WINDOW_DAYS" 7 w).2 ->
   (BusinessRules.isWithinRefundWindow o1 w).2 = true).
Proof.
  intros Hmax.
  split.
  - intros [H0 H21].
    rewrite !isWithinRefundWindow_in_range by lia.
    set (a1 := clock w - Models.timestamp o1) in *.
    set (a2 := clock w - Models.timestamp o2) in *.
    set (d := (Config.getInt "REFUND_WINDOW_DAYS" 7 w).2).
    intros H1.
    assert (Hq : a2 ÷ 86400 <= a1 ÷ 86400) by (apply Z.quot_le_mono; lia).
    assert (Hq1 : 0 <= a2 ÷ 86400) by (apply Z.quot_pos; lia).
    assert (Hq2 : a1 ÷ 86400 < 2 ^ 31).
    { rewrite Z.quot_div_nonneg by lia. apply Z.div_lt_upper_bound; lia. }
    rewrite to_int_small in H1 by (unfold Cpp.INT_MIN, Cpp.INT_MAX; lia).
    rewrite to_int_small by (unfold Cpp.INT_MIN, Cpp.INT_MAX; lia).
    lia.
  - intros [Hlo Hhi] Hd.
    rewrite isWithinRefundWindow_in_range by lia.
    set (a1 := clock w - Models.timestamp o1) in *.
    set (d := (Config.getInt "REFUND_WINDOW_DAYS" 7 w).2) in *.
    assert (Hq : a1 ÷ 86400 <= 0).
    { replace 0 with (0 ÷ 86400) by reflexivity. apply Z.quot_le_mono; lia. }
    assert (Hq2 : - 2 ^ 31 <= a1 ÷ 86400).
    { replace (- 2 ^ 31) with ((- (2 ^ 31 * 86400)) ÷ 86400) by reflexivity.
      apply Z.quot_le_mono; lia. }
    rewrite to_int_small by (unfold Cpp.INT_MIN, Cpp.INT_MAX; lia).
    lia.
Qed.

Lemma X9_refund_window_monotone_witness :
  (BusinessRules.isWithinRefundWindow
     (sample_order SERVED (clock world0 - 3 * 86400)) world0).2 = true.
Proof.
  refine (proj1 (X9_refund_window_monotone
                   (sample_order SERVED (clock world0 - 7 * 86400))
                   (sample_order SERVED (clock world0 - 3 * 86400))
                   world0 _) _ _); [simpl; lia | simpl; lia | reflexivity].
Defined.

(** ** Configuration *)

Lemma of_uint_acc_value d : forall acc,
  Z.pos (Pos.of_uint_acc d acc) = uint_value d (Z.pos acc).
Proof.
  induction d; intros acc; simpl; try reflexivity; rewrite IHd; f_equal; lia.
Qed.

Lemma of_uint_value d : Z.of_N (Pos.of_uint d) = uint_value d 0.
Proof.
  induction d; simpl; try reflexivity; try exact IHd;
    rewrite of_uint_acc_value; reflexivity.
Qed.

Ltac digit_step IH Hrest d :=
  rewrite IH by exact Hrest;
  match goal with
  | |- context [Z.of_nat (nat_of_ascii ?c) - 48] =>
      let v := eval vm_compute in (Z.of_nat (nat_of_ascii c) - 48) in
      change (Z.of_nat (nat_of_ascii c) - 48) with v
  end;
  apply pair_equal_spec; (split; [f_equal; lia | by destruct d]).

Lemma read_digits_uint d : forall acc seen rest,
  no_leading_digit rest ->
  Cpp.read_digits (NilEmpty.string_of_uint d +:+ rest) acc seen
  = (uint_value d acc,
     match d with Decimal.Nil => seen | _ => true end).
Proof.
  induction d; intros acc seen rest Hrest; simpl.
  - destruct rest as [| c r]; simpl; [reflexivity |].
    simpl in Hrest. by rewrite Hrest.
  - digit_step IHd Hrest d.
  - digit_step IHd Hrest d.
  - digit_step IHd Hrest d.
  - digit_step IHd Hrest d.
  - digit_step IHd Hrest d.
  - digit_step IHd Hrest d.
  - digit_step IHd Hrest d.
  - digit_step IHd Hrest d.
  - digit_step IHd Hrest d.
  - digit_step IHd Hrest d.
Qed.

(** The digits of a positive number are read back as that number, with or
    without a sign in front. *)
Lemma stoi_digits p rest :
  no_leading_digit rest ->
  Cpp.read_digits (NilEmpty.string_of_uint (Pos.to_uint p) +:+ rest) 0 false
  = (Z.pos p, true).
Proof.
  intros Hrest. rewrite read_digits_uint by exact Hrest.
  rewrite <- of_uint_value, DecimalPos.Unsigned.of_to. simpl.
  pose proof (DecimalPos.Unsigned.to_uint_nonnil p) as Hn.
  by destruct (Pos.to_uint p).
Qed.

Lemma stoi_to_string_gen n rest :
  no_leading_digit rest ->
  Cpp.stoi (Cpp.to_string n +:+ rest)
  = if (Cpp.INT_MIN <=? n) && (n <=? Cpp.INT_MAX) then Some n else None.
Proof.
  intros Hrest. unfold Cpp.to_string.
  destruct n as [| p | p]; simpl.
  - unfold Cpp.stoi. simpl.
    destruct rest as [| c r]; simpl; [reflexivity |].
    simpl in Hrest. by rewrite Hrest.
  - pose proof (DecimalPos.Unsigned.to_uint_nonnil p) as Hnn.
    pose proof (stoi_digits p rest Hrest) as Hd.
    unfold NilZero.string_of_uint.
    destruct (Pos.to_uint p) eqn:Hu; [done | ..];
      unfold Cpp.stoi; simpl in *; rewrite Hd; reflexivity.
  - pose proof (DecimalPos.Unsigned.to_uint_nonnil p) as Hnn.
    pose proof (stoi_digits p rest Hrest) as Hd.
    unfold NilZero.string_of_uint.
    destruct (Pos.to_uint p) eqn:Hu; [done | ..];
      unfold Cpp.stoi; simpl in *; rewrite Hd; reflexivity.
Qed.

Lemma stoi_to_string n rest :
  Cpp.INT_MIN <= n <= Cpp.INT_MAX ->
  no_leading_digit rest ->
  Cpp.stoi (Cpp.to_string n +:+ rest) = Some n.
Proof.
  intros Hn Hrest. rewrite stoi_to_string_gen by exact Hrest.
  destruct (Z.leb_spec Cpp.INT_MIN n); [| lia].
  destruct (Z.leb_spec n Cpp.INT_MAX); [| lia]. reflexivity.
Qed.

Lemma append_empty_r s : s +:+ "" = s.
Proof.
  induction s as [| c r IH]; [reflexivity |].
  change (String c r +:+ "") with (String c (r +:+ "")). by rewrite IH.
Qed.

(** A text that starts with anything but white space, a sign or a digit is
    no number for [std::stoi]. *)
Lemma stoi_not_a_number c r :
  Cpp.isspace c = false -> c <> "-"%char -> c <> "+"%char ->
  Cpp.digit_of c = None ->
  Cpp.stoi (String c r) = None.
Proof.
  intros Hsp Hm Hp Hd. unfold Cpp.stoi. simpl. rewrite Hsp.
  destruct c as [[] [] [] [] [] [] [] []];
    try (exfalso; by apply Hm); try (exfalso; by apply Hp);
    simpl; simpl in Hd; try discriminate Hd; reflexivity.
Qed.

(** X10: a number written with [std::to_string] and stored with
    [Config::set] is read back by [getInt] as the same number, for every
    [int], also when text that does not start with a digit follows it
    (trailing text is ignored, so 7days reads as 7).  The stored text is
    what [getString] returns, the key exists afterwards, and the answers for
    every other key are as before. *)
Theorem X10_config_set_then_get key n rest d ds w :
  Cpp.INT_MIN <= n <= Cpp.INT_MAX ->
  no_leading_digit rest ->
  let w' := Config.set key (Cpp.to_string n +:+ rest) w in
  Config.getInt key d w' = (w', n) /\
  Config.getString key ds w' = Cpp.to_string n +:+ rest /\
  Config.exists_ key w' = true /\
  (forall k, k <> key ->
             (Config.getInt k d w').2 = (Config.getInt k d w).2 /\
             Config.getString k ds w' = Config.getString k ds w /\
             Config.exists_ k w' = Config.exists_ k w).
Proof.
  intros Hn Hrest w'.
  assert (Hl : configMap w' !! key = Some (Cpp.to_string n +:+ rest))
    by (subst w'; simpl; apply lookup_insert_eq).
  split; [| split; [| split]].
  - unfold Config.getInt. rewrite Hl. by rewrite stoi_to_string.
  - unfold Config.getString. by rewrite Hl.
  - unfold Config.exists_. rewrite Hl. by apply bool_decide_eq_true_2.
  - intros k Hk.
    assert (Hk' : configMap w' !! k = configMap w !! k)
      by (subst w'; simpl; by apply lookup_insert_ne).
    unfold Config.getInt, Config.getString, Config.exists_. rewrite Hk'.
    split; [| done].
    destruct (configMap w !! k) as [v |]; [| done].
    by destruct (Cpp.stoi v).
Qed.

Lemma X10_config_set_then_get_witness :
  Config.getInt "REFUND_WINDOW_DAYS" 7
    (Config.set "REFUND_WINDOW_DAYS" "14 days" world0)
  = (Config.set "REFUND_WINDOW_DAYS" "14 days" world0, 14).
Proof.
  refine (proj1 (X10_config_set_then_get "REFUND_WINDOW_DAYS" 14 " days"
                   7 "" world0 _ _)).
  - unfold Cpp.INT_MIN, Cpp.INT_MAX. lia.
  - reflexivity.
Defined.

(** X11: [getInt] never fails.  A missing key gives the default and leaves
    the world alone; a value that [std::stoi] rejects gives the default and
    logs one warning.  [std::stoi] rejects the empty text, a text whose first
    character is neither white space, nor a sign, nor a digit, and the
    decimal text of a number outside the range of [int].  With such a value
    under [REFUND_WINDOW_DAYS] the refund window compares the age in days,
    computed from the 64-bit difference of the two times, with the built-in
    7 days. *)
Theorem X11_config_getInt_falls_back key d w :
  (configMap w !! key = None -> Config.getInt key d w = (w, d)) /\
  (forall v, configMap w !! key = Some v -> Cpp.stoi v = None ->
             Config.getInt key d w
             = (wlog WARNING ("Invalid integer config value for " +:+ key) w,
                d)) /\
  Cpp.stoi "" = None /\
  (forall c r, Cpp.isspace c = false -> c <> "-"%char -> c <> "+"%char ->
               Cpp.digit_of c = None -> Cpp.stoi (String c r) = None) /\
  (forall n, n < Cpp.INT_MIN \/ Cpp.INT_MAX < n ->
             Cpp.stoi (Cpp.to_string n) = None) /\
  (forall v o, configMap w !! "REFUND_WINDOW_DAYS" = Some v ->
               Cpp.stoi v = None ->
               (BusinessRules.isWithinRefundWindow o w).2
               = (Cpp.to_int
                    (Cpp.to_time_t (clock w - Models.timestamp o) ÷ 86400)
                    <=? 7)).
Proof.
  split; [apply getInt_absent |].
  split; [intros v Hv Hs; unfold Config.getInt; by rewrite Hv, Hs |].
  split; [reflexivity |].
  split; [apply stoi_not_a_number |].
  split.
  - intros n Hn.
    rewrite <- (append_empty_r (Cpp.to_string n)).
    rewrite stoi_to_string_gen by exact I.
    destruct (Z.leb_spec Cpp.INT_MIN n); [| done].
    destruct (Z.leb_spec n Cpp.INT_MAX); [lia | done].
  - intros v o Hv Hs. rewrite isWithinRefundWindow_spec.
    unfold Config.getInt. by rewrite Hv, Hs.
Qed.

(** ** More on the idempotency service *)

Lemma isDuplicate_answer rid cached w :
  answer (IdempotencyService.isDuplicate rid cached w) =
    match registry w !! rid with
    | None => (cached, false)
    | Some r => if IdempotencyService.isExpired (clock w) r
                then (cached, false) else (resultData r, true)
    end.
Proof.
  unfold IdempotencyService.isDuplicate, answer.
  destruct (registry w !! rid) as [r |]; [| done].
  by destruct (IdempotencyService.isExpired (clock w) r).
Qed.

Lemma isDuplicate_registry rid cached w :
  registry (IdempotencyService.isDuplicate rid cached w).1.1 =
    match registry w !! rid with
    | None => registry w
    | Some r => if IdempotencyService.isExpired (clock w) r
                then delete rid (registry w) else registry w
    end.
Proof.
  unfold IdempotencyService.isDuplicate.
  destruct (registry w !! rid) as [r |]; [| done].
  by destruct (IdempotencyService.isExpired (clock w) r).
Qed.

Lemma isDuplicate_clock rid cached w :
  clock (IdempotencyService.isDuplicate rid cached w).1.1 = clock w.
Proof.
  unfold IdempotencyService.isDuplicate.
  destruct (registry w !! rid) as [r |]; [| done].
  by destruct (IdempotencyService.isExpired (clock w) r).
Qed.

(** X12: a recorded failure also makes later requests with the same id
    duplicates: until the TTL has passed, [isDuplicate] returns true and
    replaces the caller's string by the empty payload of the failure
    record. *)
Theorem X12_recorded_failure_is_a_duplicate rid op cached w dt :
  dt <= defaultTTLSeconds w ->
  let w1 := IdempotencyService.recordFailure rid op w in
  answer (IdempotencyService.isDuplicate rid cached (advance dt w1))
    = ("", true) /\
  (succeeded <$> IdempotencyService.getRecord rid w1) = Some false.
Proof.
  intros Hdt w1. rewrite isDuplicate_answer. subst w1. simpl.
  rewrite lookup_insert_eq. unfold IdempotencyService.getRecord. simpl.
  rewrite lookup_insert_eq. unfold IdempotencyService.isExpired. simpl.
  destruct (Z.gtb_spec (clock w + dt - clock w) (defaultTTLSeconds w));
    [lia | done].
Qed.

Lemma X12_recorded_failure_is_a_duplicate_witness :
  answer (IdempotencyService.isDuplicate "R9" "stale text"
            (advance 60 (IdempotencyService.recordFailure "R9" "process_payment"
                           world0)))
  = ("", true).
Proof.
  refine (proj1 (X12_recorded_failure_is_a_duplicate
                   "R9" "process_payment" "stale text" world0 60 _)).
  simpl. lia.
Defined.

(** X13: request ids do not interfere: recording a success or a failure
    for one id, or checking one id (which may erase its expired record),
    does not change what [isDuplicate] answers for any other id. *)
Theorem X13_request_ids_are_independent rid rid' op P c c0 w :
  rid <> rid' ->
  answer (IdempotencyService.isDuplicate rid' c
            (IdempotencyService.recordSuccess rid op P w))
    = answer (IdempotencyService.isDuplicate rid' c w) /\
  answer (IdempotencyService.isDuplicate rid' c
            (IdempotencyService.recordFailure rid op w))
    = answer (IdempotencyService.isDuplicate rid' c w) /\
  answer (IdempotencyService.isDuplicate rid' c
            (IdempotencyService.isDuplicate rid c0 w).1.1)
    = answer (IdempotencyService.isDuplicate rid' c w).
Proof.
  intros Hne. rewrite !isDuplicate_answer.
  split; [| split].
  - simpl. by rewrite lookup_insert_ne.
  - simpl. by rewrite lookup_insert_ne.
  - rewrite isDuplicate_clock, isDuplicate_registry.
    destruct (registry w !! rid) as [r |]; [| done].
    destruct (IdempotencyService.isExpired (clock w) r); [| done].
    by rewrite lookup_delete_ne.
Qed.

Lemma X13_request_ids_are_independent_witness :
  answer (IdempotencyService.isDuplicate "R2" ""
            (IdempotencyService.recordSuccess "R1" "place_order" "OrderID=1"
               world0))
  = answer (IdempotencyService.isDuplicate "R2" "" world0).
Proof.
  refine (proj1 (X13_request_ids_are_independent
                   "R1" "R2" "place_order" "OrderID=1" "" "" world0 _)).
  discriminate.
Defined.

(** X14: recording again for an id replaces the payload and restarts the
    TTL from the time of the new record, however old the first record was.
    [setDefaultTTL] changes the TTL of records written afterwards only: a
    record written before keeps the TTL it was created with. *)
Theorem X14_rerecord_restarts_ttl rid op1 op2 P1 P2 c w dt1 dt2 s :
  answer (IdempotencyService.isDuplicate rid c
            (advance dt2
               (IdempotencyService.recordSuccess rid op2 P2
                  (advance dt1
                     (IdempotencyService.recordSuccess rid op1 P1 w)))))
    = (if dt2 <=? defaultTTLSeconds w then (P2, true) else (c, false)) /\
  answer (IdempotencyService.isDuplicate rid c
            (advance dt1
               (IdempotencyService.setDefaultTTL s
                  (IdempotencyService.recordSuccess rid op1 P1 w))))
    = (if dt1 <=? defaultTTLSeconds w then (P1, true) else (c, false)) /\
  answer (IdempotencyService.isDuplicate rid c
            (advance dt1
               (IdempotencyService.recordSuccess rid op1 P1
                  (IdempotencyService.setDefaultTTL s w))))
    = (if dt1 <=? s then (P1, true) else (c, false)).
Proof.
  rewrite !isDuplicate_answer. simpl. rewrite !lookup_insert_eq.
  unfold IdempotencyService.isExpired. simpl.
  repeat split.
  - destruct (Z.gtb_spec (clock w + dt1 + dt2 - (clock w + dt1))
                (defaultTTLSeconds w));
      destruct (Z.leb_spec dt2 (defaultTTLSeconds w)); (done || lia).
  - destruct (Z.gtb_spec (clock w + dt1 - clock w) (defaultTTLSeconds w));
      destruct (Z.leb_spec dt1 (defaultTTLSeconds w)); (done || lia).
  - destruct (Z.gtb_spec (clock w + dt1 - clock w) s);
      destruct (Z.leb_spec dt1 s); (done || lia).
Qed.

Lemma cleanupExpired_registry w :
  registry (IdempotencyService.cleanupExpired w)
  = filter (fun kv => IdempotencyService.isExpired (clock w) kv.2 = false)
      (registry w).
Proof.
  unfold IdempotencyService.cleanupExpired.
  by destruct (_ >? 0).
Qed.

Lemma cleanupExpired_clock w :
  clock (IdempotencyService.cleanupExpired w) = clock w.
Proof.
  unfold IdempotencyService.cleanupExpired.
  by destruct (_ >? 0).
Qed.

Lemma cleanupExpired_lookup w k :
  registry (IdempotencyService.cleanupExpired w) !! k =
    match registry w !! k with
    | Some r => if IdempotencyService.isExpired (clock w) r
                then None else Some r
    | None => None
    end.
Proof.
  rewrite cleanupExpired_registry, map_lookup_filter.
  destruct (registry w !! k) as [r |]; simpl; [| done].
  destruct (IdempotencyService.isExpired (clock w) r) eqn:He.
  - by rewrite option_guard_False by (simpl; congruence).
  - by rewrite option_guard_True by (simpl; congruence).
Qed.

(** X15: the sweep removes exactly the expired records and keeps every
    other record as it is.  It is invisible to callers: [isDuplicate]
    answers the same for every id before and after the sweep; the number
    of tracked records does not grow, and a second sweep at the same time
    finds nothing more to remove. *)
Theorem X15_sweep_removes_expired_records_only w k c :
  registry (IdempotencyService.cleanupExpired w) !! k =
    match registry w !! k with
    | Some r => if IdempotencyService.isExpired (clock w) r
                then None else Some r
    | None => None
    end /\
  answer (IdempotencyService.isDuplicate k c (IdempotencyService.cleanupExpired w))
    = answer (IdempotencyService.isDuplicate k c w) /\
  (size (registry (IdempotencyService.cleanupExpired w))
   <= size (registry w))%nat /\
  registry (IdempotencyService.cleanupExpired
              (IdempotencyService.cleanupExpired w))
    = registry (IdempotencyService.cleanupExpired w).
Proof.
  split; [apply cleanupExpired_lookup |]. split; [| split].
  - rewrite !isDuplicate_answer, cleanupExpired_clock, cleanupExpired_lookup.
    destruct (registry w !! k) as [r |]; [| done].
    destruct (IdempotencyService.isExpired (clock w) r) eqn:He; [done |].
    by rewrite He.
  - rewrite cleanupExpired_registry.
    apply map_subseteq_size, map_filter_subseteq.
  - apply map_eq. intros i.
    rewrite (cleanupExpired_lookup (IdempotencyService.cleanupExpired w)).
    rewrite cleanupExpired_clock, cleanupExpired_lookup.
    destruct (registry w !! i) as [r |]; [| done].
    destruct (IdempotencyService.isExpired (clock w) r) eqn:He; [done |].
    by rewrite He.
Qed.

Lemma getTrackedCount_size w :
  Z.of_nat (size (registry w)) <= Cpp.INT_MAX ->
  IdempotencyService.getTrackedCount w = Z.of_nat (size (registry w)).
Proof.
  intros H. unfold IdempotencyService.getTrackedCount.
  apply to_int_small. unfold Cpp.INT_MIN, Cpp.INT_MAX in *. lia.
Qed.

(** X16: the tracked count grows by one when a new id is recorded and
    stays the same when an id is recorded again.  An expired record is
    still counted until a check of its id (or a sweep) removes it; that
    check lowers the count by one. *)
Theorem X16_tracked_count rid op P c w :
  Z.of_nat (size (registry w)) < Cpp.INT_MAX ->
  IdempotencyService.getTrackedCount
    (IdempotencyService.recordSuccess rid op P w)
  = (if bool_decide (is_Some (registry w !! rid))
     then IdempotencyService.getTrackedCount w
     else IdempotencyService.getTrackedCount w + 1) /\
  (forall r, registry w !! rid = Some r ->
             IdempotencyService.isExpired (clock w) r = true ->
             IdempotencyService.getTrackedCount
               (IdempotencyService.isDuplicate rid c w).1.1
             = IdempotencyService.getTrackedCount w - 1).
Proof.
  intros Hsz. rewrite (getTrackedCount_size w) by lia. split.
  - destruct (registry w !! rid) as [r |] eqn:Hl.
    + rewrite bool_decide_eq_true_2 by eauto.
      rewrite getTrackedCount_size; simpl;
        rewrite map_size_insert_Some by eauto; lia.
    + rewrite bool_decide_eq_false_2 by (intros [? ?]; done).
      rewrite getTrackedCount_size; simpl;
        rewrite map_size_insert_None by done; lia.
  - intros r Hl He.
    assert (Hpos : (0 < size (registry w))%nat).
    { destruct (size (registry w)) eqn:Hs; [| lia].
      apply map_size_empty_inv in Hs. rewrite Hs in Hl. done. }
    rewrite getTrackedCount_size;
      rewrite isDuplicate_registry, Hl, He, map_size_delete_Some by eauto;
      lia.
Qed.

Lemma X16_tracked_count_witness :
  IdempotencyService.getTrackedCount
    (IdempotencyService.recordSuccess "R1" "place_order" "OrderID=1" world0)
  = IdempotencyService.getTrackedCount world0 + 1.
Proof.
  refine (proj1 (X16_tracked_count "R1" "place_order" "OrderID=1" ""
                   world0 _)).
  vm_compute. reflexivity.
Defined.

(** ** More on the event bus *)

Lemma erase_first_absent l (ls : list N) : l ∉ ls -> EventBus.erase_first l ls = ls.
Proof.
  induction ls as [| y r IH]; intros Hn; simpl; [done |].
  apply not_elem_of_cons in Hn as [Hne Hn].
  destruct (N.eqb_spec y l) as [-> | _]; [done |]. by rewrite IH.
Qed.

Lemma erase_first_snoc l ls :
  l ∉ ls -> EventBus.erase_first l (ls ++ [l]) = ls.
Proof.
  induction ls as [| y r IH]; intros Hn; simpl.
  - by rewrite N.eqb_refl.
  - apply not_elem_of_cons in Hn as [Hne Hn].
    destruct (N.eqb_spec y l) as [-> | _]; [done |]. by rewrite IH.
Qed.

Lemma filter_ne_absent (l : N) (ls : list N) :
  l ∉ ls -> filter (fun x => x <> l) ls = ls.
Proof.
  induction ls as [| y r IH]; intros Hn; [done |].
  apply not_elem_of_cons in Hn as [Hne Hn].
  rewrite filter_cons_True by congruence. by rewrite IH.
Qed.

Lemma erase_first_NoDup l ls :
  NoDup ls -> EventBus.erase_first l ls = filter (fun x => x <> l) ls.
Proof.
  induction 1 as [| y r Hy Hnd IH]; simpl; [done |].
  destruct (N.eqb_spec y l) as [-> | Hne].
  - rewrite filter_cons_False by (intros H; by apply H).
    by rewrite filter_ne_absent.
  - rewrite filter_cons_True by done. by rewrite IH.
Qed.

Lemma unsubscribe_listeners w l :
  listeners (EventBus.unsubscribe l w) =
    if N.eqb l nullptr then listeners w
    else EventBus.erase_first l (listeners w).
Proof.
  unfold EventBus.unsubscribe. destruct (N.eqb l nullptr); [done |].
  destruct (bool_decide_reflect (l ∈ listeners w)) as [Hin | Hnin]; [done |].
  by rewrite erase_first_absent.
Qed.

(** X17: [unsubscribe] undoes [subscribe]: for a listener that was not
    subscribed, subscribing and then unsubscribing it gives back the
    listener vector as it was.  Unsubscribing the null pointer or a
    listener that is not subscribed changes nothing, not even the log. *)
Theorem X17_unsubscribe_undoes_subscribe w l :
  EventBus.unsubscribe nullptr w = w /\
  (l ∉ listeners w -> EventBus.unsubscribe l w = w) /\
  (l ∉ listeners w ->
   listeners (EventBus.unsubscribe l (EventBus.subscribe l w)) = listeners w).
Proof.
  split; [reflexivity |]. split.
  - intros Hn. unfold EventBus.unsubscribe.
    destruct (N.eqb l nullptr); [done |].
    by rewrite bool_decide_eq_false_2.
  - intros Hn. rewrite unsubscribe_listeners, subscribe_listeners.
    destruct (N.eqb l nullptr); [done |].
    rewrite bool_decide_eq_false_2 by done. by apply erase_first_snoc.
Qed.

Lemma X17_unsubscribe_undoes_subscribe_witness :
  listeners (EventBus.unsubscribe 3%N
               (EventBus.subscribe 3%N (world_with [1%N; 2%N])))
  = [1%N; 2%N].
Proof.
  refine (proj2 (proj2 (X17_unsubscribe_undoes_subscribe
                          (world_with [1%N; 2%N]) 3%N)) _).
  simpl. intros H.
  apply elem_of_cons in H as [H | H]; [discriminate H |].
  apply elem_of_cons in H as [H | H]; [discriminate H |].
  by apply elem_of_nil in H.
Defined.

(** X18: on a bus without duplicate entries (the only kind [subscribe]
    builds) an unsubscribed listener is gone from the vector, the other
    listeners keep their order, the vector stays free of duplicates, and
    the next [emit] does not invoke the unsubscribed listener. *)
Theorem X18_unsubscribed_listener_is_not_called w l e :
  NoDup (listeners w) -> l <> nullptr ->
  let w' := EventBus.unsubscribe l w in
  listeners w' = filter (fun x => x <> l) (listeners w) /\
  (l ∉ listeners w') /\
  NoDup (listeners w') /\
  exists delivered,
    calls (EventBus.emit e w').1 = calls w ++ delivered /\
    times_called l delivered = 0%nat.
Proof.
  intros Hnd Hnull w'.
  assert (Hls : listeners w' = filter (fun x => x <> l) (listeners w)).
  { subst w'. rewrite unsubscribe_listeners.
    destruct (N.eqb_spec l nullptr) as [-> | _]; [done |].
    by apply erase_first_NoDup. }
  assert (Hnin : l ∉ listeners w').
  { rewrite Hls. intros Hin. apply list_elem_of_filter in Hin as [Hne _].
    by apply Hne. }
  assert (Hcalls : calls w' = calls w).
  { subst w'. unfold EventBus.unsubscribe.
    destruct (N.eqb l nullptr); [done |].
    by destruct (bool_decide (l ∈ listeners w)). }
  split; [exact Hls |]. split; [exact Hnin |]. split.
  - rewrite Hls. by apply NoDup_filter.
  - destruct (emit_prefix e w') as [k Hk].
    exists (deliveries e (take k (listeners w'))).
    split; [by rewrite Hk, Hcalls |].
    apply times_called_absent. intros Hin. apply Hnin.
    eapply elem_of_sublist; [exact Hin | apply sublist_take].
Qed.

Lemma X18_unsubscribed_listener_is_not_called_witness :
  listeners (EventBus.unsubscribe 2%N (world_with [1%N; 2%N; 3%N]))
  = [1%N; 3%N].
Proof.
  refine (proj1 (X18_unsubscribed_listener_is_not_called
                   (world_with [1%N; 2%N; 3%N]) 2%N sample_event _ _)).
  - simpl. repeat (apply NoDup_cons; split;
                   [intros H; repeat (apply elem_of_cons in H as [H | H];
                                      [discriminate H |]);
                    by apply elem_of_nil in H |]).
    apply NoDup_nil_2.
  - discriminate.
Defined.

(** X19: after [clear] nobody is subscribed: the next [emit] returns
    normally without invoking any listener, whatever the listeners
    subscribed before would have done. *)
Theorem X19_clear_silences_the_bus w e :
  listeners (EventBus.clear w) = [] /\
  (EventBus.emit e (EventBus.clear w)).2 = Returned tt /\
  calls (EventBus.emit e (EventBus.clear w)).1 = calls w /\
  listeners (EventBus.emit e (EventBus.clear w)).1 = [].
Proof. repeat split. Qed.

Lemma erase_first_middle l (ls rest : list N) :
  l ∉ ls -> EventBus.erase_first l (ls ++ l :: rest) = ls ++ rest.
Proof.
  induction ls as [| y r IH]; intros Hn; simpl.
  - by rewrite N.eqb_refl.
  - apply not_elem_of_cons in Hn as [Hne Hn].
    destruct (N.eqb_spec y l) as [-> | _]; [done |]. by rewrite IH.
Qed.

Lemma unsubscribe_middle w l (ls rest : list N) :
  l <> nullptr -> listeners w = ls ++ l :: rest -> l ∉ ls ->
  listeners (EventBus.unsubscribe l w) = ls ++ rest.
Proof.
  intros Hnull Hw Hn. rewrite unsubscribe_listeners, Hw.
  destruct (N.eqb_spec l nullptr) as [-> | _]; [done |].
  by apply erase_first_middle.
Qed.

Lemma subscribe_fresh w l :
  l <> nullptr -> l ∉ listeners w ->
  listeners (EventBus.subscribe l w) = listeners w ++ [l] /\
  heap (EventBus.subscribe l w) = heap w /\
  calls (EventBus.subscribe l w) = calls w.
Proof.
  intros Hnull Hn. unfold EventBus.subscribe.
  destruct (N.eqb_spec l nullptr) as [-> | _]; [done |].
  by rewrite bool_decide_eq_false_2.
Qed.

(** X20: [initializeEventListeners] appends the logger, audit and analytics
    listeners, in this order, behind the listeners already subscribed.
    None of the three ever throws, so when the earlier listeners throw
    nothing but [std::exception]s an [emit] reaches all listeners and
    returns; [cleanupEventListeners] then takes exactly the three out
    again. *)
Theorem X20_sample_listeners_setup a1 a2 a3 w e :
  a1 <> nullptr -> a2 <> nullptr -> a3 <> nullptr ->
  a1 <> a2 -> a1 <> a3 -> a2 <> a3 ->
  a1 ∉ listeners w -> a2 ∉ listeners w -> a3 ∉ listeners w ->
  let r := EventBus.initializeEventListeners a1 a2 a3 w in
  listeners r.2 = listeners w ++ [a1; a2; a3] /\
  (only_std_exceptions w e (listeners w) ->
   (EventBus.emit e r.2).2 = Returned tt /\
   calls (EventBus.emit e r.2).1
   = calls w ++ deliveries e (listeners w) ++ [(a1, e); (a2, e); (a3, e)]) /\
  listeners (EventBus.cleanupEventListeners r.1 r.2) = listeners w.
Proof.
  intros N1 N2 N3 D12 D13 D23 F1 F2 F3 r.
  set (w3 := EventBus.alloc a3 EventBus.AnalyticsListener
               (EventBus.alloc a2 EventBus.AuditListener
                  (EventBus.alloc a1 EventBus.LoggerListener w))).
  destruct (subscribe_fresh w3 a1 N1 F1) as (L1 & H1 & C1).
  set (s1 := EventBus.subscribe a1 w3) in *.
  assert (F2' : a2 ∉ listeners s1).
  { rewrite L1. intros Hin. apply elem_of_app in Hin as [Hin | Hin]; [done |].
    apply list_elem_of_singleton in Hin. congruence. }
  destruct (subscribe_fresh s1 a2 N2 F2') as (L2 & H2 & C2).
  set (s2 := EventBus.subscribe a2 s1) in *.
  assert (F3' : a3 ∉ listeners s2).
  { rewrite L2, L1. intros Hin.
    apply elem_of_app in Hin as [Hin | Hin];
      [apply elem_of_app in Hin as [Hin | Hin]; [done |] |];
      apply list_elem_of_singleton in Hin; congruence. }
  destruct (subscribe_fresh s2 a3 N3 F3') as (L3 & H3 & C3).
  assert (Hr : r.2 = EventBus.subscribe a3 s2) by reflexivity.
  assert (HL : listeners r.2 = listeners w ++ [a1; a2; a3]).
  { rewrite Hr, L3, L2, L1. simpl. by rewrite <- !app_assoc. }
  assert (Hheap : heap r.2 = heap w3) by (rewrite Hr, H3, H2, H1; done).
  assert (Hcalls : calls r.2 = calls w) by (rewrite Hr, C3, C2, C1; done).
  split; [exact HL |]. split.
  - intros Hstd.
    assert (Hall : only_std_exceptions r.2 e (listeners r.2)).
    { intros l now lg Hin. rewrite Hheap. rewrite HL in Hin. subst w3.
      simpl. apply elem_of_app in Hin as [Hin | Hin].
      - destruct (N.eqb_spec l a3) as [-> | _]; [done |].
        destruct (N.eqb_spec l a2) as [-> | _]; [done |].
        destruct (N.eqb_spec l a1) as [-> | _]; [done |].
        by apply Hstd.
      - destruct (N.eqb_spec l a3) as [-> | Hne3]; [done |].
        destruct (N.eqb_spec l a2) as [-> | Hne2]; [done |].
        destruct (N.eqb_spec l a1) as [-> | Hne1]; [done |].
        exfalso. repeat (apply elem_of_cons in Hin as [Hin | Hin];
                         [congruence |]).
        by apply elem_of_nil in Hin. }
    destruct (emit_all e r.2 Hall) as [Hret Hc].
    split; [exact Hret |]. rewrite Hc, Hcalls, HL.
    unfold deliveries. by rewrite map_app.
  - unfold EventBus.cleanupEventListeners.
    change (EventBus.loggerListener r.1) with a1.
    change (EventBus.auditListener r.1) with a2.
    change (EventBus.analyticsListener r.1) with a3.
    destruct (N.eqb_spec a1 nullptr) as [? | _]; [done |].
    destruct (N.eqb_spec a2 nullptr) as [? | _]; [done |].
    destruct (N.eqb_spec a3 nullptr) as [? | _]; [done |].
    assert (U1 : listeners (EventBus.unsubscribe a1 r.2)
                 = listeners w ++ [a2; a3])
      by (by apply unsubscribe_middle).
    assert (U2 : listeners (EventBus.unsubscribe a2
                              (EventBus.unsubscribe a1 r.2))
                 = listeners w ++ [a3])
      by (by apply unsubscribe_middle).
    pose proof (unsubscribe_middle _ a3 (listeners w) [] N3 U2 F3) as U3.
    by rewrite app_nil_r in U3.
Qed.

Lemma X20_sample_listeners_setup_witness :
  calls (EventBus.emit sample_event
           (EventBus.initializeEventListeners 1%N 3%N 5%N
              (world_with [2%N])).2).1
  = [(2%N, sample_event); (1%N, sample_event); (3%N, sample_event);
     (5%N, sample_event)].
Proof.
  assert (Hn : forall a : N, a <> 2%N -> a ∉ listeners (world_with [2%N])).
  { intros a Ha Hin. simpl in Hin.
    apply elem_of_cons in Hin as [Hin | Hin]; [done |].
    by apply elem_of_nil in Hin. }
  assert (Hstd : only_std_exceptions (world_with [2%N]) sample_event
                   (listeners (world_with [2%N]))).
  { intros l now lg Hin. simpl in Hin.
    apply elem_of_cons in Hin as [-> | Hin]; [discriminate |].
    by apply elem_of_nil in Hin. }
  refine (proj2 (proj1 (proj2 (X20_sample_listeners_setup 1%N 3%N 5%N
                                 (world_with [2%N]) sample_event
                                 _ _ _ _ _ _ _ _ _)) Hstd));
    try discriminate; apply Hn; discriminate.
Defined.

(** ** Command invoker *)

Lemma execute_returns indeterminate c w :
  only_std_exceptions w
    (CommandPattern.make_event indeterminate (CommandPattern.eventTypeOf c) w)
    (listeners w) ->
  (CommandPattern.execute indeterminate c w).2 = Returned (c, true).
Proof.
  intros Hstd.
  destruct c; simpl in *;
    (eapply emit_and_return_spec;
     [apply same_static_wlog | reflexivity | exact Hstd]).
Qed.

Lemma execute_thrown_or_true indeterminate c w :
  (exists e, (CommandPattern.execute indeterminate c w).2 = Thrown e) \/
  (CommandPattern.execute indeterminate c w).2 = Returned (c, true).
Proof.
  destruct c; simpl; unfold CommandPattern.emit_and_return;
    match goal with
    | |- context [EventBus.emit ?e ?w0] =>
        destruct (EventBus.emit e w0) as [w' [[] | ex]]
    end; simpl; eauto.
Qed.

Lemma execute_throws_foreign indeterminate c w e :
  (CommandPattern.execute indeterminate c w).2 = Thrown e -> e = OtherException.
Proof.
  destruct c; simpl; unfold CommandPattern.emit_and_return;
    match goal with
    | |- context [EventBus.emit ?ev ?w0] =>
        pose proof (emit_thrown ev w0) as Hth;
        destruct (EventBus.emit ev w0) as [w' [[] | ex]]
    end; simpl in *; try discriminate; intros [= <-]; by apply Hth.
Qed.

Lemma invoker_undo_snoc h c w :
  CommandPattern.invoker_undo (h ++ [c]) w
  = (wlog INFO ("UNDO: " +:+ CommandPattern.getName c)
       (CommandPattern.undo c w).1, (h, true)).
Proof.
  unfold CommandPattern.invoker_undo. rewrite last_snoc.
  rewrite removelast_last. by destruct c.
Qed.

(** X21: [CommandInvoker::execute] on a null pointer returns false and
    changes nothing.  On a pointer to a command of one of the four command
    classes of CommandPattern.cpp: when no listener lets an exception
    escape, it returns true and appends the command to the history, where
    it is the last command, and an [undo] right after takes exactly this
    command off again; otherwise it leaves by the exception and the command
    is not recorded.  For these commands there is no third case: it does
    not return false. *)
Theorem X21_invoker_records_executed_commands indeterminate cmd history w :
  CommandPattern.invoker_execute indeterminate None history w
  = (w, Returned (history, false)) /\
  let r := CommandPattern.invoker_execute indeterminate (Some cmd) history w in
  (only_std_exceptions w
     (CommandPattern.make_event indeterminate
        (CommandPattern.eventTypeOf cmd) w) (listeners w) ->
   r.2 = Returned (history ++ [cmd], true) /\
   CommandPattern.getLastCommand (history ++ [cmd]) = Some cmd /\
   (CommandPattern.invoker_undo (history ++ [cmd]) r.1).2 = (history, true)) /\
  ((exists e, r.2 = Thrown e) \/ r.2 = Returned (history ++ [cmd], true)) /\
  (forall h ok, r.2 = Returned (h, ok) -> h = history ++ [cmd] /\ ok = true) /\
  (forall e, r.2 = Thrown e ->
             e = OtherException /\
             ~ only_std_exceptions w
                 (CommandPattern.make_event indeterminate
                    (CommandPattern.eventTypeOf cmd) w) (listeners w)).
Proof.
  split; [reflexivity |].
  intros r.
  assert (Hcases : (exists e, r.2 = Thrown e) \/
                   r.2 = Returned (history ++ [cmd], true)).
  { subst r. unfold CommandPattern.invoker_execute.
    destruct (execute_thrown_or_true indeterminate cmd w) as [[e He] | He];
      destruct (CommandPattern.execute indeterminate cmd w) as [w' res];
      simpl in He; subst res; simpl; eauto. }
  assert (Hstd_ok : only_std_exceptions w
            (CommandPattern.make_event indeterminate
               (CommandPattern.eventTypeOf cmd) w) (listeners w) ->
          r.2 = Returned (history ++ [cmd], true)).
  { intros Hstd. subst r. unfold CommandPattern.invoker_execute.
    pose proof (execute_returns indeterminate cmd w Hstd) as He.
    destruct (CommandPattern.execute indeterminate cmd w) as [w' res].
    simpl in He. by subst res. }
  assert (Hex : forall e, r.2 = Thrown e -> e = OtherException).
  { intros e. subst r. unfold CommandPattern.invoker_execute.
    pose proof (execute_throws_foreign indeterminate cmd w e) as Hf.
    destruct (CommandPattern.execute indeterminate cmd w)
      as [w' [[c' []] | ex]]; simpl in *; try discriminate.
    intros [= ->]. by apply Hf. }
  split; [| split; [exact Hcases | split]].
  2: { intros h ok Hr. destruct Hcases as [[e He] | He];
         rewrite He in Hr; [discriminate Hr |].
       by injection Hr as <- <-. }
  2: { intros e He. split; [by apply Hex |].
       intros Hstd. rewrite (Hstd_ok Hstd) in He. discriminate He. }
  subst r. unfold CommandPattern.invoker_execute.
  intros Hstd. pose proof (execute_returns indeterminate cmd w Hstd) as He.
  destruct (CommandPattern.execute indeterminate cmd w) as [w' res].
  simpl in He. subst res. simpl.
  split; [reflexivity |]. split.
  - unfold CommandPattern.getLastCommand. apply last_snoc.
  - by rewrite invoker_undo_snoc.
Qed.


(** ** Order management of the monolith *)

Lemma count_matches_filter (P : Domain.Order -> bool) l : forall acc,
  fold_left (fun count o => if P o then count + 1 else count) l acc
  = acc + Z.of_nat (length (filter (fun o => P o = true) l)).
Proof.
  induction l as [| o r IH]; intros acc; simpl; [lia |].
  rewrite IH. destruct (P o) eqn:HP.
  - rewrite filter_cons_True by done. simpl. lia.
  - rewrite filter_cons_False by congruence. lia.
Qed.

Lemma filter_status_eqb (s : OrderState) (l : list Domain.Order) :
  filter (fun o => OrderState_eqb (Domain.status o) s = true) l
  = filter (fun o => Domain.status o = s) l.
Proof.
  induction l as [| o r IH]; [done |].
  unfold OrderState_eqb in *.
  destruct (decide (Domain.status o = s)) as [Heq | Hne].
  - rewrite !filter_cons_True; [by rewrite IH | done |].
    by apply bool_decide_eq_true_2.
  - rewrite !filter_cons_False; [done | done |].
    rewrite bool_decide_eq_false_2 by done. discriminate.
Qed.

(** X23: [calculateOrderCount] counts exactly the orders that
    [filterOrdersByStatus] returns.  Both go through [stringToState], so
    for a status text that is not a display name they silently report the
    orders in the Created state, and every order they report is among the
    orders in use. *)
Theorem X23_status_queries_agree status st :
  Monolith.calculateOrderCount status st
  = Z.of_nat (length (Monolith.filterOrdersByStatus status st)) /\
  (~ In status Domain.OrderFlowManager.names ->
   Monolith.filterOrdersByStatus status st
   = Monolith.filterOrdersByStatus "Created" st) /\
  (forall o, o ∈ Monolith.filterOrdersByStatus status st ->
             o ∈ Monolith.active_orders st /\
             Domain.status o = Domain.OrderFlowManager.stringToState status).
Proof.
  split; [| split].
  - unfold Monolith.calculateOrderCount, Monolith.filterOrdersByStatus.
    rewrite (count_matches_filter
               (fun o => OrderState_eqb (Domain.status o)
                           (Domain.OrderFlowManager.stringToState status))).
    by rewrite filter_status_eqb.
  - intros Hn. unfold Monolith.filterOrdersByStatus.
    assert (Hs : Domain.OrderFlowManager.stringToState status = CREATED).
    { unfold Domain.OrderFlowManager.stringToState.
      repeat match goal with
             | |- context [String.eqb status ?n] =>
                 destruct (String.eqb_spec status n) as [-> | _];
                 [exfalso; apply Hn; simpl; tauto |]
             end.
      reflexivity. }
    by rewrite Hs.
  - intros o Hin. unfold Monolith.filterOrdersByStatus in Hin.
    apply list_elem_of_filter in Hin as [H1 H2]. done.
Qed.

Lemma find_order_spec id l : forall s i o,
  Monolith.find_order id l s = Some (i, o) ->
  exists k, i = (s + k)%nat /\ l !! k = Some o /\ Domain.orderId o = id /\
            forall j o', (j < k)%nat -> l !! j = Some o' ->
                         Domain.orderId o' <> id.
Proof.
  induction l as [| x r IH]; intros s i o H; simpl in H; [discriminate H |].
  destruct (Z.eqb_spec (Domain.orderId x) id) as [Heq | Hne].
  - injection H as <- <-. exists 0%nat.
    repeat split; [lia | done | lia].
  - apply IH in H as (k & -> & Hk & Hid & Hbefore).
    exists (S k). repeat split; [lia | done | done |].
    intros [| j] o' Hj Ho'; simpl in Ho'.
    + by injection Ho' as <-.
    + eapply Hbefore; [| exact Ho']. lia.
Qed.

Lemma find_order_in_heap id st i o :
  Monolith.find_order id (Monolith.active_orders st) 0 = Some (i, o) ->
  Monolith.orderHeap st !! i = Some o /\ Domain.orderId o = id.
Proof.
  intros H. apply find_order_spec in H as (k & -> & Hk & Hid & _).
  unfold Monolith.active_orders in Hk.
  apply lookup_take_Some in Hk as [Hk _]. done.
Qed.

(** X24: [cancelOrder] acts on the first order in use with the given id
    and succeeds exactly when that order is Created, Confirmed or Ready;
    the order then becomes Cancelled and the caller receives its total as
    refund.  A Served order is refused before anything is written.  A
    Preparing, Cancelled or Refunded order is refused by the state machine
    only after the caller's refund amount has been overwritten with the
    order total, although nothing is cancelled.  Without such an order the
    call returns false and changes nothing. *)
Theorem X24_cancelOrder_outcomes getCurrentDate getCurrentTime oid refund st :
  let r := Monolith.cancelOrder getCurrentDate getCurrentTime oid refund st in
  (Monolith.find_order oid (Monolith.active_orders st) 0 = None ->
   r = (st, refund, false)) /\
  (forall i o,
      Monolith.find_order oid (Monolith.active_orders st) 0 = Some (i, o) ->
      (r.2 = true <->
       Domain.status o = CREATED \/ Domain.status o = CONFIRMED
       \/ Domain.status o = READY) /\
      (r.2 = true ->
       r.1.2 = Domain.totalAmount o /\
       Monolith.orderHeap r.1.1
       = <[i := Domain.set_status o CANCELLED]> (Monolith.orderHeap st)) /\
      (Domain.status o = SERVED ->
       r.1.2 = refund /\ Monolith.orderHeap r.1.1 = Monolith.orderHeap st) /\
      (Domain.status o = PREPARING \/ Domain.status o = CANCELLED
       \/ Domain.status o = REFUNDED ->
       r.2 = false /\ r.1.2 = Domain.totalAmount o /\
       Monolith.orderHeap r.1.1 = Monolith.orderHeap st)).
Proof.
  intros r. subst r. unfold Monolith.cancelOrder. split.
  - intros ->. reflexivity.
  - intros i o Hf. rewrite Hf.
    apply find_order_in_heap in Hf as [Hl _].
    unfold Domain.tryUpdateStatus, Monolith.recordTransaction.
    destruct (Domain.status o) eqn:Hs; simpl;
      try rewrite (list_insert_id _ _ _ Hl);
      try destruct (Monolith.transactionCount st >=? Monolith.MAX_TRANSACTIONS);
      simpl; repeat split; intros;
      repeat match goal with
             | H : _ \/ _ |- _ => destruct H
             end;
      try discriminate; try done; tauto.
Qed.

Example cancelOrder_on_a_preparing_order :
  let r := Monolith.cancelOrder (fun _ => "2023-11-14") (fun _ => "22:13:20")
             1 0%float demo_store in
  r.2 = false /\ r.1.2 = 450%float /\
  Monolith.orderHeap r.1.1 = Monolith.orderHeap demo_store.
Proof. repeat split. Qed.

Lemma write_items_spec newItems : forall (items : list string) j,
  (j + length newItems <= length items)%nat ->
  Monolith.write_items items newItems j
  = take j items ++ newItems ++ drop (j + length newItems) items.
Proof.
  induction newItems as [| x rest IH]; intros items j Hlen; simpl in *.
  - rewrite Nat.add_0_r. by rewrite take_drop.
  - rewrite IH by (rewrite length_insert; lia).
    rewrite (take_S_r _ _ x) by (apply list_lookup_insert_eq; lia).
    rewrite take_insert_ge by lia.
    rewrite drop_insert_lt by lia.
    replace (S j + length rest)%nat with (j + S (length rest))%nat by lia.
    by rewrite <- app_assoc.
Qed.

(** X25: [modifyOrder] changes the first order in use with the given id
    only while it is Created or Confirmed; in every other state it returns
    false and leaves the orders alone.  A successful call replaces the
    leading item slots by the new items, keeps the remaining slots, sets the
    item count and the total, and never touches the id or the state of the
    order.  More new items than the order has slots run past the array. *)
Theorem X25_modifyOrder_outcomes getCurrentDate getCurrentTime oid newItems
    newTotal st :
  let r := Monolith.modifyOrder getCurrentDate getCurrentTime oid newItems
             newTotal st in
  (Monolith.find_order oid (Monolith.active_orders st) 0 = None ->
   r = Some (st, false)) /\
  (forall i o,
      Monolith.find_order oid (Monolith.active_orders st) 0 = Some (i, o) ->
      (Domain.status o <> CREATED -> Domain.status o <> CONFIRMED ->
       exists st', r = Some (st', false) /\
                   Monolith.orderHeap st' = Monolith.orderHeap st) /\
      (Domain.status o = CREATED \/ Domain.status o = CONFIRMED ->
       (length newItems <= length (Domain.items o))%nat ->
       exists st' o',
         r = Some (st', true) /\
         Monolith.orderHeap st' = <[i := o']> (Monolith.orderHeap st) /\
         Domain.status o' = Domain.status o /\
         Domain.orderId o' = Domain.orderId o /\
         Domain.totalAmount o' = newTotal /\
         Domain.itemCount o' = Cpp.to_int (Z.of_nat (length newItems)) /\
         Domain.items o'
         = newItems ++ drop (length newItems) (Domain.items o)) /\
      (Domain.status o = CREATED \/ Domain.status o = CONFIRMED ->
       (length (Domain.items o) < length newItems)%nat ->
       r = None)).
Proof.
  intros r. subst r. unfold Monolith.modifyOrder. split.
  - intros ->. reflexivity.
  - intros i o Hf. rewrite Hf. split; [| split].
    + intros H1 H2. unfold OrderState_eqb.
      rewrite !bool_decide_eq_false_2 by done. simpl. eauto.
    + intros Hst Hlen.
      assert (Hg : negb (OrderState_eqb (Domain.status o) CREATED)
                   && negb (OrderState_eqb (Domain.status o) CONFIRMED)
                   = false)
        by (destruct Hst as [-> | ->]; reflexivity).
      rewrite Hg.
      destruct (Nat.ltb_spec (length (Domain.items o)) (length newItems));
        [lia |].
      eexists _, _. split; [reflexivity |].
      unfold Monolith.recordTransaction.
      split.
      { destruct (Monolith.transactionCount _ >=? Monolith.MAX_TRANSACTIONS);
          reflexivity. }
      simpl. repeat split.
      rewrite write_items_spec by (simpl; lia). reflexivity.
    + intros Hst Hlen.
      assert (Hg : negb (OrderState_eqb (Domain.status o) CREATED)
                   && negb (OrderState_eqb (Domain.status o) CONFIRMED)
                   = false)
        by (destruct Hst as [-> | ->]; reflexivity).
      rewrite Hg.
      destruct (Nat.ltb_spec (length (Domain.items o)) (length newItems));
        [reflexivity | lia].
Qed.

Example modifyOrder_on_the_sample_store :
  let gd := fun _ : Z => "2023-11-14" in
  let gt := fun _ : Z => "22:13:20" in
  (snd <$> Monolith.modifyOrder gd gt 1 ["Soup"] 99%float demo_store)
    = Some false /\
  (snd <$> Monolith.modifyOrder gd gt 7 ["Soup"] 99%float demo_store)
    = Some false.
Proof. split; reflexivity. Qed.

(** X26: [recordTransaction] keeps the buffer in order: the count never
    passes the 1000 slots and the entries carry consecutive ids.  While
    there is room the new entry becomes the last one in the history of its
    order and the histories of other orders are unchanged; once the buffer
    is full the entry is dropped, nothing but the log changes. *)
Theorem X26_transaction_buffer getCurrentDate getCurrentTime oid act details
    st :
  transactions_in_order st ->
  let st' := Monolith.recordTransaction getCurrentDate getCurrentTime oid act
               details st in
  transactions_in_order st' /\
  Monolith.orderHeap st' = Monolith.orderHeap st /\
  (Monolith.transactionCount st < Monolith.MAX_TRANSACTIONS ->
   Monolith.transactionCount st' = Monolith.transactionCount st + 1 /\
   (exists t,
       Monolith.getOrderHistory oid st'
       = Monolith.getOrderHistory oid st ++ [t] /\
       Monolith.transactionId t = Monolith.transactionCount st + 1 /\
       Monolith.action t = act /\ Monolith.txDetails t = details) /\
   (forall oid', oid' <> oid ->
                 Monolith.getOrderHistory oid' st'
                 = Monolith.getOrderHistory oid' st)) /\
  (Monolith.transactionCount st = Monolith.MAX_TRANSACTIONS ->
   Monolith.transactions st' = Monolith.transactions st /\
   Monolith.transactionCount st' = Monolith.transactionCount st).
Proof.
  intros (Hrange & Hlen & Hids) st'. subst st'.
  unfold transactions_in_order.
  unfold Monolith.recordTransaction, Monolith.MAX_TRANSACTIONS in *.
  destruct (Z.geb_spec (Monolith.transactionCount st) 1000) as [Hfull | Hroom].
  - assert (Monolith.transactionCount st = 1000) as Heq by lia.
    split; [| split; [| split]]; simpl; try done; try lia.
  - set (n := Z.to_nat (Monolith.transactionCount st)).
    set (t := {| Monolith.transactionId := Monolith.transactionCount st + 1;
                 Monolith.txOrderId := oid; Monolith.action := act;
                 Monolith.txTimestamp :=
                   getCurrentDate (Monolith.now st) +:+ " "
                     +:+ getCurrentTime (Monolith.now st);
                 Monolith.txDetails := details |}).
    assert (Hn : (n < length (Monolith.transactions st))%nat)
      by (subst n; lia).
    assert (Htake : take (Z.to_nat (Monolith.transactionCount st + 1))
                      (<[n := t]> (Monolith.transactions st))
                    = take n (Monolith.transactions st) ++ [t]).
    { replace (Z.to_nat (Monolith.transactionCount st + 1)) with (S n)
        by (subst n; lia).
      rewrite (take_S_r _ _ t) by (by apply list_lookup_insert_eq).
      by rewrite take_insert_ge by lia. }
    split; [| split; [| split]]; simpl.
    + split; [lia |]. split; [by rewrite length_insert |].
      intros k t' Hk Hl.
      destruct (decide (k = n)) as [-> | Hne].
      * rewrite list_lookup_insert_eq in Hl by done.
        injection Hl as <-. simpl. subst n. lia.
      * rewrite list_lookup_insert_ne in Hl by done.
        apply Hids; [subst n; lia | done].
    + reflexivity.
    + intros _. split; [reflexivity |]. split.
      * exists t. unfold Monolith.getOrderHistory. simpl.
        rewrite Htake, filter_app.
        rewrite (filter_cons_True _ t) by reflexivity. done.
      * intros oid' Hne. unfold Monolith.getOrderHistory. simpl.
        rewrite Htake, filter_app.
        rewrite (filter_cons_False _ t) by (simpl; congruence).
        by rewrite app_nil_r.
    + intros Heq. lia.
Qed.

Lemma X26_transaction_buffer_witness :
  transactions_in_order
    (Monolith.recordTransaction (fun _ => "2023-11-14") (fun _ => "22:13:20")
       2 "Cancelled" "Full refund of $120.000000" demo_store).
Proof.
  refine (proj1 (X26_transaction_buffer
                   (fun _ => "2023-11-14") (fun _ => "22:13:20")
                   2 "Cancelled" "Full refund of $120.000000" demo_store _)).
  split; [unfold Monolith.MAX_TRANSACTIONS; simpl; lia |].
  split; [reflexivity |].
  intros k t Hk. simpl in Hk. lia.
Defined.

(** ** Algorithms of the monolith *)

Lemma greedyChange_spec denoms : forall amount,
  0 <= amount -> Forall (fun d => 0 < d) denoms ->
  exists take,
    Algorithms.greedyChange amount denoms = Some take /\
    length take = length denoms /\
    Forall (fun t => 0 <= t) take /\
    0 <= amount - paid take denoms <= amount /\
    Forall (fun d => amount - paid take denoms < d) denoms.
Proof.
  induction denoms as [| d rest IH]; intros amount Ha Hd; simpl.
  - exists []. simpl. repeat split; try constructor; lia.
  - apply Forall_cons in Hd as [Hd Hrest].
    destruct (Z.eqb_spec d 0) as [-> | _]; [lia |].
    destruct (Z.eqb_spec d (-1)) as [-> | _]; [lia |].
    rewrite andb_false_r. simpl.
    pose proof (Z.rem_bound_pos amount d Ha Hd) as Hr.
    pose proof (Z.quot_rem' amount d) as Hqr.
    assert (Hq : 0 <= amount ÷ d) by (apply Z.quot_pos; lia).
    destruct (IH (Z.rem amount d)) as (take & -> & Hlen & Hpos & Hb & Hlt);
      [lia | done |].
    exists (amount ÷ d :: take). simpl.
    assert (Heq : amount - (amount ÷ d * d + paid take rest)
                  = Z.rem amount d - paid take rest) by lia.
    split; [reflexivity |]. split; [by rewrite Hlen |].
    split; [by constructor |]. rewrite Heq.
    split; [nia |].
    constructor; [lia | exact Hlt].
Qed.

(** X27: for a non-negative amount and positive denominations
    [greedyChange] returns one non-negative count per denomination; the
    counts never pay more than the amount, and what is left unpaid is
    smaller than every denomination.  With a denomination of 1 in the list
    the amount is therefore paid exactly. *)
Theorem X27_greedy_change amount denoms :
  0 <= amount -> Forall (fun d => 0 < d) denoms ->
  exists take,
    Algorithms.greedyChange amount denoms = Some take /\
    length take = length denoms /\
    Forall (fun t => 0 <= t) take /\
    0 <= amount - paid take denoms <= amount /\
    Forall (fun d => amount - paid take denoms < d) denoms /\
    (1 ∈ denoms -> paid take denoms = amount).
Proof.
  intros Ha Hd.
  destruct (greedyChange_spec denoms amount Ha Hd)
    as (take & Hg & Hlen & Hpos & Hb & Hlt).
  exists take. repeat split; try done; try lia.
  intros H1. rewrite Forall_forall in Hlt. specialize (Hlt 1 H1). lia.
Qed.

Lemma X27_greedy_change_witness :
  exists take,
    Algorithms.greedyChange 93 [25; 10; 5; 1] = Some take /\
    paid take [25; 10; 5; 1] = 93.
Proof.
  destruct (X27_greedy_change 93 [25; 10; 5; 1]) as (take & Hg & _ & _ & _ & _ & H1).
  - lia.
  - repeat constructor.
  - exists take. split; [exact Hg |]. apply H1.
    do 3 right. left.
Defined.

Lemma mid_between l r : l <= r -> l <= l + (r - l) ÷ 2 <= r.
Proof.
  intros H. rewrite Z.quot_div_nonneg by lia.
  pose proof (Z.div_pos (r - l) 2 ltac:(lia) ltac:(lia)).
  assert ((r - l) / 2 <= r - l) by (apply Z.div_le_upper_bound; lia). lia.
Qed.

Ltac with_mid :=
  match goal with
  | Hd : decide (?l <= ?r) = left ?Hle |- _ => pose proof (mid_between l r Hle)
  end.

(** Whatever the content of the vector, an index that the loop returns
    lies between the bounds and holds the target. *)
Lemma binarySearch_loop_sound arr target l r :
  Algorithms.binarySearch_loop arr target l r = -1 \/
  (l <= Algorithms.binarySearch_loop arr target l r <= r /\
   nth (Z.to_nat (Algorithms.binarySearch_loop arr target l r)) arr 0
   = target).
Proof.
  funelim (Algorithms.binarySearch_loop arr target l r).
  - by left.
  - with_mid. right. split; [lia |]. by apply Z.eqb_eq.
  - with_mid. destruct H as [H | [H1 H2]]; [by left | right].
    split; [lia | done].
  - with_mid. destruct H as [H | [H1 H2]]; [by left | right].
    split; [lia | done].
Qed.

Lemma ascending_nth arr i j :
  ascending arr -> 0 <= i <= j -> j < Z.of_nat (length arr) ->
  nth (Z.to_nat i) arr 0 <= nth (Z.to_nat j) arr 0.
Proof.
  intros Hasc Hij Hj.
  destruct (lookup_lt_is_Some_2 arr (Z.to_nat i) ltac:(lia)) as [x Hx].
  destruct (lookup_lt_is_Some_2 arr (Z.to_nat j) ltac:(lia)) as [y Hy].
  rewrite (nth_lookup_Some _ _ _ _ Hx), (nth_lookup_Some _ _ _ _ Hy).
  eapply Hasc; [| exact Hx | exact Hy]. lia.
Qed.

(** On an ascending vector the loop gives up only when the target is
    nowhere between the bounds. *)
Lemma binarySearch_loop_complete arr target l r :
  ascending arr -> 0 <= l -> r < Z.of_nat (length arr) ->
  Algorithms.binarySearch_loop arr target l r = -1 ->
  forall k, l <= k <= r -> nth (Z.to_nat k) arr 0 <> target.
Proof.
  funelim (Algorithms.binarySearch_loop arr target l r);
    intros Hasc Hl Hr Hres k Hk.
  - lia.
  - with_mid. lia.
  - with_mid. apply Z.ltb_lt in Heq.
    destruct (Z_le_gt_dec k (l + (r - l) ÷ 2)) as [Hle | Hgt].
    + pose proof (ascending_nth arr k (l + (r - l) ÷ 2) Hasc
                    ltac:(lia) ltac:(lia)). lia.
    + apply H; try done; lia.
  - with_mid. apply Z.ltb_ge in Heq. apply Z.eqb_neq in Heq0.
    destruct (Z_le_gt_dec (l + (r - l) ÷ 2) k) as [Hle | Hgt].
    + pose proof (ascending_nth arr (l + (r - l) ÷ 2) k Hasc
                    ltac:(lia) ltac:(lia)). lia.
    + apply H; try done; lia.
Qed.

Lemma StronglySorted_ascending arr : StronglySorted Z.le arr -> ascending arr.
Proof.
  induction 1 as [| x l Hs IH Hall]; intros i j a b Hij Ha Hb.
  - destruct i; discriminate Ha.
  - destruct i as [| i], j as [| j]; simpl in Ha, Hb.
    + injection Ha as <-. injection Hb as <-. lia.
    + injection Ha as <-. rewrite Forall_forall in Hall.
      apply Hall. by eapply list_elem_of_lookup_2.
    + lia.
    + eapply IH; [| exact Ha | exact Hb]. lia.
Qed.

(** X28: [binarySearch] returns -1 or an index inside the vector at which
    the target stands, whatever the order of the elements; on a vector in
    ascending order it returns -1 only when the target does not occur. *)
Theorem X28_binary_search arr target :
  Z.of_nat (length arr) <= Cpp.INT_MAX ->
  let i := Algorithms.binarySearch arr target in
  (i = -1 \/
   (0 <= i < Z.of_nat (length arr) /\ arr !! Z.to_nat i = Some target)) /\
  (ascending arr -> i = -1 -> target ∉ arr) /\
  (ascending arr -> target ∈ arr -> arr !! Z.to_nat i = Some target).
Proof.
  intros Hsize i. subst i. unfold Algorithms.binarySearch.
  rewrite to_int_small by (unfold Cpp.INT_MIN, Cpp.INT_MAX in *; lia).
  set (n := Z.of_nat (length arr)).
  assert (Hsound :
            Algorithms.binarySearch_loop arr target 0 (n - 1) = -1 \/
            (0 <= Algorithms.binarySearch_loop arr target 0 (n - 1) < n /\
             arr !! Z.to_nat (Algorithms.binarySearch_loop arr target 0 (n - 1))
             = Some target)).
  { destruct (binarySearch_loop_sound arr target 0 (n - 1)) as [H | [H1 H2]];
      [by left | right]. split; [lia |].
    destruct (lookup_lt_is_Some_2 arr
                (Z.to_nat (Algorithms.binarySearch_loop arr target 0 (n - 1)))
                ltac:(subst n; lia)) as [x Hx].
    rewrite (nth_lookup_Some _ _ _ _ Hx) in H2. by subst x. }
  assert (Hcomplete :
            ascending arr ->
            Algorithms.binarySearch_loop arr target 0 (n - 1) = -1 ->
            target ∉ arr).
  { intros Hasc Hres Hin. apply list_elem_of_lookup in Hin as [k Hk].
    pose proof (lookup_lt_Some _ _ _ Hk) as Hlt.
    apply (binarySearch_loop_complete arr target 0 (n - 1) Hasc
             ltac:(lia) ltac:(subst n; lia) Hres (Z.of_nat k));
      [subst n; lia |].
    rewrite Nat2Z.id. by apply nth_lookup_Some. }
  split; [exact Hsound |]. split; [exact Hcomplete |].
  intros Hasc Hin. destruct Hsound as [Hres | [_ Hfound]]; [| done].
  exfalso. by apply (Hcomplete Hasc Hres).
Qed.

Lemma X28_binary_search_witness :
  [1; 3; 5; 7; 9] !! Z.to_nat (Algorithms.binarySearch [1; 3; 5; 7; 9] 7)
  = Some 7.
Proof.
  refine (proj2 (proj2 (X28_binary_search [1; 3; 5; 7; 9] 7 _)) _ _).
  - unfold Cpp.INT_MAX. simpl. lia.
  - apply StronglySorted_ascending.
    repeat (constructor; [| repeat constructor; lia]). constructor.
  - do 3 right. left.
Defined.

(** ** Amount checks on IEEE doubles *)

Lemma SFcompare_antisym f1 f2 :
  SFcompare f2 f1 = option_map CompOpp (SFcompare f1 f2).
Proof.
  destruct f1 as [s1 | s1 | | s1 m1 e1], f2 as [s2 | s2 | | s2 m2 e2];
    simpl; try reflexivity;
    try (destruct s1; reflexivity); try (destruct s2; reflexivity);
    try (destruct s1, s2; reflexivity).
  destruct s1, s2; simpl; try reflexivity;
    rewrite (Z.compare_antisym e1 e2);
    destruct (e1 ?= e2); simpl; try reflexivity;
    pose proof (Pos.compare_cont_antisym m1 m2 Eq) as H; simpl in H;
    rewrite <- H; by rewrite ?CompOpp_involutive.
Qed.

Lemma SFcompare_refl f : f <> S754_nan -> SFcompare f f = Some Eq.
Proof.
  destruct f as [s | s | | s m e]; simpl; intros H; try done;
    try (by destruct s).
  destruct s; rewrite Z.compare_refl, Pos.compare_cont_refl; reflexivity.
Qed.

Lemma is_nan_spec a : PrimFloat.is_nan a = true <-> Prim2SF a = S754_nan.
Proof.
  unfold PrimFloat.is_nan. rewrite FloatAxioms.eqb_spec. unfold SFeqb.
  split.
  - intros H. destruct (Prim2SF a) eqn:Ha; try reflexivity;
      rewrite SFcompare_refl in H by discriminate; discriminate H.
  - intros ->. reflexivity.
Qed.

(** Against a bound that is a number, a failed [<=] means NaN or [>]. *)
Lemma leb_false_iff a b :
  PrimFloat.is_nan b = false ->
  PrimFloat.leb a b = false <->
  PrimFloat.is_nan a = true \/ PrimFloat.ltb b a = true.
Proof.
  intros Hb. rewrite is_nan_spec.
  assert (Hb' : Prim2SF b <> S754_nan).
  { intros H. apply is_nan_spec in H. congruence. }
  rewrite FloatAxioms.leb_spec, FloatAxioms.ltb_spec. unfold SFleb, SFltb.
  rewrite (SFcompare_antisym (Prim2SF a) (Prim2SF b)).
  destruct (Prim2SF a) as [s | s | | s m e] eqn:Ha;
    destruct (SFcompare _ (Prim2SF b)) as [[] |] eqn:Hc; simpl;
    split; intros H; try done; try (by right); try (by left);
    try (destruct H as [H | H]; discriminate H);
    destruct (Prim2SF b); simpl in Hc; try done; try discriminate Hc;
    try (by destruct s).
Qed.

Lemma ltb_false_iff a b :
  PrimFloat.is_nan a = false ->
  PrimFloat.ltb a b = false <->
  PrimFloat.is_nan b = true \/ PrimFloat.leb b a = true.
Proof.
  intros Ha. rewrite is_nan_spec.
  assert (Ha' : Prim2SF a <> S754_nan).
  { intros H. apply is_nan_spec in H. congruence. }
  rewrite FloatAxioms.leb_spec, FloatAxioms.ltb_spec. unfold SFleb, SFltb.
  rewrite (SFcompare_antisym (Prim2SF a) (Prim2SF b)).
  destruct (Prim2SF b) as [s | s | | s m e] eqn:Hb;
    destruct (SFcompare (Prim2SF a) _) as [[] |] eqn:Hc; simpl;
    split; intros H; try done; try (by right); try (by left);
    try (destruct H as [H | H]; discriminate H);
    destruct (Prim2SF a); simpl in Hc; try done; try discriminate Hc;
    try (by destruct s).
Qed.

(** X29: the amount checks compare with [<=] and [>] only, so a NaN
    passes them.  [canCreateOrder] accepts exactly a positive customer id
    with an amount that is positive or NaN (positive infinity included);
    [isValidPaymentAmount] accepts exactly the amounts in (0, 1000000] and
    NaN. *)
Theorem X29_amount_checks_accept_nan cid amount w :
  ((BusinessRules.canCreateOrder cid amount w).2 = true <->
   0 < cid /\
   (PrimFloat.is_nan amount = true \/ PrimFloat.ltb 0 amount = true)) /\
  ((BusinessRules.isValidPaymentAmount amount w).2 = true <->
   PrimFloat.is_nan amount = true \/
   (PrimFloat.ltb 0 amount = true /\ PrimFloat.leb amount 1000000 = true)) /\
  (0 < cid ->
   BusinessRules.canCreateOrder cid nan w = (w, true) /\
   BusinessRules.canCreateOrder cid infinity w = (w, true)) /\
  BusinessRules.isValidPaymentAmount nan w = (w, true) /\
  (BusinessRules.isValidPaymentAmount infinity w).2 = false.
Proof.
  pose proof (leb_false_iff amount 0 eq_refl) as H0.
  pose proof (ltb_false_iff 1000000 amount eq_refl) as H1.
  split; [| split; [| split; [| split]]].
  - unfold BusinessRules.canCreateOrder.
    destruct (Z.leb_spec cid 0) as [Hc | Hc]; simpl.
    + split; [discriminate | lia].
    + destruct (PrimFloat.leb amount 0) eqn:Hle; simpl.
      * split; [discriminate |]. intros [_ H]. apply H0 in H. discriminate H.
      * split; [| done]. intros _. split; [lia |]. by apply H0.
  - unfold BusinessRules.isValidPaymentAmount.
    destruct (PrimFloat.leb amount 0) eqn:Hle; simpl.
    + split; [discriminate |].
      intros H. assert (Hf : true = false); [| discriminate Hf].
      apply H0. tauto.
    + destruct (PrimFloat.ltb 1000000 amount) eqn:Hlt; simpl.
      * split; [discriminate |].
        intros H.
        assert (Hf : true = false); [| discriminate Hf].
        apply H1. tauto.
      * split; [| done]. intros _.
        destruct (proj1 H0 eq_refl) as [Hn | Hp]; [by left |].
        destruct (proj1 H1 eq_refl) as [Hn | Hq]; [by left |].
        right. done.
  - intros Hc. unfold BusinessRules.canCreateOrder.
    destruct (Z.leb_spec cid 0); [lia |]. done.
  - reflexivity.
  - reflexivity.
Qed.

(** ** The priority heap of orders *)

Lemma swap_slots_lookup h i j a b x :
  i <> j -> h !! i = Some a -> h !! j = Some b ->
  Monolith.swap_slots h i j !! x =
    if decide (x = i) then Some b
    else if decide (x = j) then Some a else h !! x.
Proof.
  intros Hij Ha Hb. unfold Monolith.swap_slots. rewrite Ha, Hb.
  pose proof (lookup_lt_Some _ _ _ Ha). pose proof (lookup_lt_Some _ _ _ Hb).
  destruct (decide (x = i)) as [-> | Hxi].
  - rewrite list_lookup_insert_eq by (rewrite length_insert; lia). done.
  - rewrite list_lookup_insert_ne by done.
    destruct (decide (x = j)) as [-> | Hxj].
    + by rewrite list_lookup_insert_eq by lia.
    + by rewrite list_lookup_insert_ne.
Qed.

Lemma swap_slots_Permutation h i j : Monolith.swap_slots h i j ≡ₚ h.
Proof.
  unfold Monolith.swap_slots.
  destruct (h !! i) as [a |] eqn:Ha; [| done].
  destruct (h !! j) as [b |] eqn:Hb; [| done].
  by apply Permutation_insert_swap.
Qed.

Lemma parent_lt k : (k / 2 < S k)%nat.
Proof. pose proof (Nat.Div0.div_le_upper_bound k 2 k ltac:(lia)). lia. Qed.

Lemma heapifyUp_loop_heap h index :
  forall n, (index < n <= length h)%nat -> heap_but h n index ->
            is_max_heap (Monolith.heapifyUp_loop h index) n.
Proof.
  funelim (Monolith.heapifyUp_loop h index); intros n Hn [H1 H2].
  - intros i p c Hi. apply H1; [done | lia].
  - exfalso. pose proof (parent_lt k).
    destruct (lookup_lt_is_Some_2 h (k / 2) ltac:(lia)) as [x Hx].
    congruence.
  - exfalso. destruct (lookup_lt_is_Some_2 h (S k) ltac:(lia)) as [x Hx].
    congruence.
  - intros i p c Hi Hp Hc. destruct (decide (i = S k)) as [-> | Hne].
    + replace (S k - 1)%nat with k in Hp by lia.
      rewrite Heq1 in Hp. rewrite Heq0 in Hc.
      injection Hp as <-. injection Hc as <-. lia.
    + by eapply H1.
  - pose proof (parent_lt k) as Hlt.
    assert (Hpc : Domain.priority parent < Domain.priority child) by lia.
    assert (Hlook : forall x,
               Monolith.swap_slots h (k / 2) (S k) !! x =
                 if decide (x = (k / 2)%nat) then Some child
                 else if decide (x = S k) then Some parent else h !! x).
    { intros x. apply swap_slots_lookup; [lia | done | done]. }
    apply H.
    + split; [lia |].
      rewrite (Permutation_length (swap_slots_Permutation h (k / 2) (S k))).
      lia.
    + split.
      * intros i p c Hi Hne Hp Hc. rewrite Hlook in Hp, Hc.
        destruct (decide (i = (k / 2)%nat)) as [-> | Hip]; [done |].
        destruct (decide (i = S k)) as [-> | Hik].
        -- replace (S k - 1)%nat with k in Hp by lia.
           rewrite decide_True in Hp by done.
           injection Hp as <-. injection Hc as <-. lia.
        -- destruct (decide (((i - 1) / 2)%nat = (k / 2)%nat)) as [Hq | Hq].
           ++ injection Hp as <-.
              assert (Domain.priority c <= Domain.priority parent); [| lia].
              eapply (H1 i); [done | done | | exact Hc]. by rewrite Hq.
           ++ destruct (decide (((i - 1) / 2)%nat = S k)) as [Hq' | Hq'].
              ** injection Hp as <-.
                 eapply (H2 i); [done | done | lia | | exact Hc].
                 by replace (S k - 1)%nat with k by lia.
              ** by eapply (H1 i).
      * intros i g c Hi Hpar Hpos Hg Hc. rewrite Hlook in Hg, Hc.
        assert (Hgp : ((k / 2 - 1) / 2 < k / 2)%nat).
        { pose proof (Nat.Div0.div_le_upper_bound (k / 2 - 1) 2 (k / 2 - 1)
                        ltac:(lia)). lia. }
        rewrite decide_False in Hg by lia.
        rewrite decide_False in Hg by lia.
        assert (Hpg : Domain.priority parent <= Domain.priority g)
          by (eapply (H1 (k / 2)%nat); [lia | lia | exact Hg | done]).
        assert (Hik : i <> (k / 2)%nat).
        { intros ->. subst.
          pose proof (Nat.Div0.div_le_upper_bound (k / 2 - 1) 2 (k / 2 - 1)
                        ltac:(lia)). lia. }
        rewrite decide_False in Hc by done.
        destruct (decide (i = S k)) as [-> | Hne].
        -- injection Hc as <-. done.
        -- assert (Domain.priority c <= Domain.priority parent); [| lia].
           eapply (H1 i); [done | done | | exact Hc]. by rewrite Hpar.
Qed.

Lemma swap_slots_take h i j n :
  (i < n)%nat -> (j < n)%nat ->
  take n (Monolith.swap_slots h i j) ≡ₚ take n h.
Proof.
  intros Hi Hj. unfold Monolith.swap_slots.
  destruct (h !! i) as [a |] eqn:Ha; [| done].
  destruct (h !! j) as [b |] eqn:Hb; [| done].
  rewrite !take_insert_lt by done.
  apply Permutation_insert_swap; by rewrite lookup_take_lt.
Qed.

Lemma heapifyUp_loop_take h index :
  forall n, (index < n)%nat ->
            take n (Monolith.heapifyUp_loop h index) ≡ₚ take n h.
Proof.
  funelim (Monolith.heapifyUp_loop h index); intros n Hn; try done.
  pose proof (parent_lt k).
  rewrite H by lia. apply swap_slots_take; lia.
Qed.

Lemma heapifyUp_loop_beyond h index :
  forall x, (index < x)%nat ->
            Monolith.heapifyUp_loop h index !! x = h !! x.
Proof.
  funelim (Monolith.heapifyUp_loop h index); intros x Hx; try done.
  pose proof (parent_lt k).
  rewrite H by lia.
  rewrite (swap_slots_lookup h (k / 2) (S k) parent child) by (done || lia).
  rewrite decide_False by lia. by rewrite decide_False by lia.
Qed.

Lemma heapifyUp_loop_length h index :
  length (Monolith.heapifyUp_loop h index) = length h.
Proof.
  funelim (Monolith.heapifyUp_loop h index); try done.
  rewrite H. apply Permutation_length, swap_slots_Permutation.
Qed.

Lemma max_heap_root h n :
  is_max_heap h n ->
  forall i r c, (i < n)%nat -> (n <= length h)%nat ->
                h !! 0%nat = Some r -> h !! i = Some c ->
                Domain.priority c <= Domain.priority r.
Proof.
  intros Hheap i. induction i as [i IH] using lt_wf_ind.
  intros r c Hi Hn Hr Hc. destruct i as [| k].
  - rewrite Hr in Hc. injection Hc as <-. lia.
  - pose proof (parent_lt k) as Hlt.
    destruct (lookup_lt_is_Some_2 h (k / 2) ltac:(lia)) as [p Hp].
    assert (Domain.priority c <= Domain.priority p).
    { eapply (Hheap (S k)); [lia | | exact Hc].
      by replace (S k - 1)%nat with k by lia. }
    assert (Domain.priority p <= Domain.priority r)
      by (eapply (IH (k / 2)%nat); [lia | lia | done | done | done]).
    lia.
Qed.

(** X30: putting an order into the next free slot and calling
    [orderHeapifyUp] on it keeps the priority heap: if the orders in use
    formed a max-heap, they still do with the new order included, the
    orders in use are the old ones plus the new one (none lost, none
    doubled), the slots behind them are untouched, and the order in slot 0
    has the highest priority of all orders in use. *)
Theorem X30_push_keeps_the_priority_heap o st :
  0 <= Monolith.orderHeapSize st ->
  (Z.to_nat (Monolith.orderHeapSize st) < length (Monolith.orderHeap st))%nat ->
  is_max_heap (Monolith.orderHeap st) (Z.to_nat (Monolith.orderHeapSize st)) ->
  let st' := Monolith.push_order o st in
  Monolith.orderHeapSize st' = Monolith.orderHeapSize st + 1 /\
  is_max_heap (Monolith.orderHeap st') (Z.to_nat (Monolith.orderHeapSize st')) /\
  Monolith.active_orders st' ≡ₚ o :: Monolith.active_orders st /\
  (forall x, (Z.to_nat (Monolith.orderHeapSize st) < x)%nat ->
             Monolith.orderHeap st' !! x = Monolith.orderHeap st !! x) /\
  (forall r c, Monolith.orderHeap st' !! 0%nat = Some r ->
               c ∈ Monolith.active_orders st' ->
               Domain.priority c <= Domain.priority r).
Proof.
  intros Hsz Hroom Hheap st'. subst st'.
  unfold Monolith.push_order, Monolith.orderHeapifyUp, Monolith.active_orders.
  simpl.
  set (n := Z.to_nat (Monolith.orderHeapSize st)) in *.
  set (h := Monolith.orderHeap st) in *.
  replace (Z.to_nat (Monolith.orderHeapSize st + 1 - 1)) with n
    by (subst n; lia).
  replace (Z.to_nat (Monolith.orderHeapSize st + 1)) with (S n)
    by (subst n; lia).
  assert (Hlen : length (<[n := o]> h) = length h) by apply length_insert.
  assert (Hbut : heap_but (<[n := o]> h) (S n) n).
  { split.
    - intros i p c Hi Hne Hp Hc.
      assert (Hpi : ((i - 1) / 2 <= i - 1)%nat)
        by (apply Nat.Div0.div_le_upper_bound; lia).
      rewrite list_lookup_insert_ne in Hp by lia.
      rewrite list_lookup_insert_ne in Hc by lia.
      eapply (Hheap i); [lia | done | done].
    - intros i g c Hi Hpar.
      assert (Hpi : ((i - 1) / 2 <= i - 1)%nat)
        by (apply Nat.Div0.div_le_upper_bound; lia).
      lia. }
  assert (Hres : is_max_heap (Monolith.heapifyUp_loop (<[n := o]> h) n) (S n))
    by (apply heapifyUp_loop_heap; [lia | done]).
  assert (Hperm : take (S n) (Monolith.heapifyUp_loop (<[n := o]> h) n)
                  ≡ₚ o :: take n h).
  { rewrite heapifyUp_loop_take by lia.
    rewrite (take_S_r _ _ o) by (apply list_lookup_insert_eq; lia).
    rewrite take_insert_ge by lia.
    by rewrite Permutation_app_comm. }
  split; [reflexivity |]. split; [exact Hres |]. split; [exact Hperm |].
  split.
  - intros x Hx. rewrite heapifyUp_loop_beyond by lia.
    by rewrite list_lookup_insert_ne by lia.
  - intros r c Hr Hc.
    apply list_elem_of_lookup in Hc as [i Hi].
    apply lookup_take_Some in Hi as [Hi Hlt].
    eapply (max_heap_root _ (S n) Hres i); [lia | | done | done].
    rewrite heapifyUp_loop_length. lia.
Qed.

(** A fourth order, of priority 7, pushed onto the three orders of the
    demonstration (priorities 5, 2, 1 in slots 0, 1, 2): it enters slot 3
    and is swapped past its parent in slot 1 and past the root. *)
Lemma X30_push_keeps_the_priority_heap_witness :
  let st' := Monolith.push_order (vip_order 4 7) store_after_demo in
  Monolith.orderHeapSize st' = 3 + 1 /\
  is_max_heap (Monolith.orderHeap st') (Z.to_nat (Monolith.orderHeapSize st')) /\
  Monolith.active_orders st'
    ≡ₚ vip_order 4 7 :: Monolith.active_orders store_after_demo /\
  (forall x, (3 < x)%nat ->
             Monolith.orderHeap st' !! x
             = Monolith.orderHeap store_after_demo !! x) /\
  (forall r c, Monolith.orderHeap st' !! 0%nat = Some r ->
               c ∈ Monolith.active_orders st' ->
               Domain.priority c <= Domain.priority r).
Proof.
  assert (H0 : is_max_heap (Monolith.orderHeap store_after_demo)
                 (Z.to_nat (Monolith.orderHeapSize store_after_demo))).
  { intros i p c Hi Hp Hc.
    change (Z.to_nat (Monolith.orderHeapSize store_after_demo)) with 3%nat in Hi.
    assert (Hi' : i = 1%nat \/ i = 2%nat) by lia.
    destruct Hi' as [-> | ->]; vm_compute in Hp, Hc;
      injection Hp as <-; injection Hc as <-; simpl; lia. }
  exact (X30_push_keeps_the_priority_heap (vip_order 4 7) store_after_demo
           ltac:(vm_compute; discriminate)
           ltac:(vm_compute; lia) H0).
Defined.

Example push_sifts_the_new_order_up :
  let st := store_after_demo in
  let st' := Monolith.push_order (vip_order 4 7) st in
  (Domain.priority <$> Monolith.active_orders st) = [5; 2; 1] /\
  (Domain.priority <$> Monolith.active_orders st') = [7; 5; 1; 2] /\
  (Domain.orderId <$> Monolith.active_orders st') = [4; 2; 3; 1].
Proof. vm_compute. repeat split. Qed.

(** The three insertions of the heap demonstration, with priorities 2, 5
    and 1: the order with priority 5 ends up in slot 0. *)
Example heap_demo_of_main :
  let st := Monolith.push_order (vip_order 3 1)
              (Monolith.push_order (vip_order 2 5)
                 (Monolith.push_order (vip_order 1 2) fresh_store)) in
  Monolith.orderHeapSize st = 3 /\
  (Domain.orderId <$> Monolith.orderHeap st !! 0%nat) = Some 2 /\
  (Domain.orderId <$> Monolith.active_orders st) = [2; 1; 3].
Proof. vm_compute. repeat split. Qed.
